(** * PentaCodec: the symbol codec of [src/SymbolCodec.c]

    A shallow embedding of the character tables, the penta packer, the
    cipher codec and the wire reader, together with the properties stated
    for them.

    Integers are mathematical integers ([Z]); every place where the source
    computes in a fixed width ([jInt], [jLong], [jChar], Java [int], [long],
    [char]) has the wrap-around written out. *)

From Stdlib Require Import ZArith Lia ZifyBool.
From Stdlib.Strings Require Import String Ascii Byte.
From stdpp Require Import base list gmap.

Local Open Scope Z_scope.

(** ** Fixed-width integers ([PrimitiveTypes.h]) *)

(** [jInt]: 32-bit two's complement. *)
Definition to_jInt (x : Z) : Z := (x + 2 ^ 31) mod 2 ^ 32 - 2 ^ 31.

(** [jLong]: 64-bit two's complement. *)
Definition to_jLong (x : Z) : Z := (x + 2 ^ 63) mod 2 ^ 64 - 2 ^ 63.

(** [jChar]: 16-bit unsigned code unit. *)
Definition to_jChar (x : Z) : Z := x mod 2 ^ 16.

(** The casts [(unsigned jInt)] and [(unsigned jLong)]. *)
Definition to_uInt (x : Z) : Z := x mod 2 ^ 32.
Definition to_uLong (x : Z) : Z := x mod 2 ^ 64.

Definition is_jInt (x : Z) : Prop := - 2 ^ 31 <= x < 2 ^ 31.

(** Java [long << int]: the distance is taken modulo 64. *)
Definition jlong_shl (x n : Z) : Z := to_jLong (Z.shiftl x (Z.land n 63)).

(** Java [long >>> int]: logical shift, distance modulo 64. *)
Definition jlong_ushr (x n : Z) : Z := Z.shiftr (to_uLong x) (Z.land n 63).

(** Java [int << int]: the distance is taken modulo 32. *)
Definition jint_shl (x n : Z) : Z := to_jInt (Z.shiftl x (Z.land n 31)).

(** A character literal as its code, [L'/'] in the source. *)
Definition chr (a : ascii) : Z := Z.of_nat (nat_of_ascii a).

(** A Java [String] is a sequence of 16-bit code units; a reference that
    may be [null] is an [option]. *)
Definition jstring : Type := list Z.

Definition jstr (s : string) : jstring := map chr (list_ascii_of_string s).

(** ** Global state of the codec *)

(** Arrays are lists read and written by index.  The source never indexes
    out of range: [initSymbolCodec] uses constants below the array sizes,
    [encode] guards with [c >= 128], and the cipher functions index with
    the literals ['/'] and ['$']. *)
Definition arr_get (a : list Z) (i : Z) : Z := a !!! Z.to_nat i.
Definition arr_set (a : list Z) (i v : Z) : list Z := <[Z.to_nat i := v]> a.

Definition penta_length : Z := 128.

Record globals := Globals {
  pentas : list Z;          (* jInt pentas[penta_length] *)
  plength : list Z;         (* jInt plength[penta_length] *)
  characters : list Z;      (* jChar characters[1024] *)
  WILDCARD_CIPHER : Z       (* jInt WILDCARD_CIPHER *)
}.

Inductive parse_error := pr_illegal_argument | pr_internal_error.

(** ** Cipher codec *)

(** [encodePenta]: the literal [0x80000000] has type [unsigned], the sum is
    converted back to [jInt] by the return. *)
Definition encodePenta (g : globals) (penta plen : Z) : Z :=
  if plen <=? 30 then to_jInt (to_jInt penta + 0x40000000)
  else
    let c := to_jInt (Z.shiftr (to_uLong penta) 30) in
    if c =? arr_get (pentas g) (chr "/") then
      to_jInt (Z.land (to_jInt penta) 0x3FFFFFFF + 0x80000000)
    else if c =? arr_get (pentas g) (chr "$") then
      to_jInt (Z.land (to_jInt penta) 0x3FFFFFFF + 0xC0000000)
    else 0.

(** [decodeCipher]: [inl] is the error handed to [setParseError], [inr] the
    value stored through the out-pointer. *)
Definition decodeCipher (g : globals) (cipher : Z) : parse_error + Z :=
  match Z.shiftr (to_uInt cipher) 30 with
  | 0 => inl pr_illegal_argument
  | 1 => inr (Z.land cipher 0x3FFFFFFF)
  | 2 => inr (to_jLong (to_jLong (Z.shiftl (arr_get (pentas g) (chr "/")) 30)
                        + Z.land cipher 0x3FFFFFFF))
  | 3 => inr (to_jLong (to_jLong (Z.shiftl (arr_get (pentas g) (chr "$")) 30)
                        + Z.land cipher 0x3FFFFFFF))
  | _ => inl pr_internal_error
  end.

(** ** Penta packer *)

(** The body of the [for] loop of [encode]; [None] is the early
    [return 0]. *)
Fixpoint encode_loop (g : globals) (cs : jstring) (penta plen : Z)
  : option (Z * Z) :=
  match cs with
  | [] => Some (penta, plen)
  | c :: cs' =>
      if c >=? 128 then None
      else
        let l := arr_get (plength g) c in
        encode_loop g cs'
          (to_jLong (jlong_shl penta l + arr_get (pentas g) c))
          (to_jInt (plen + l))
  end.

Definition encode (g : globals) (symbol : option jstring) : Z :=
  match symbol with
  | None => 0
  | Some s =>
      if Z.of_nat (length s) >? 7 then 0
      else
        match encode_loop g s 0 0 with
        | None => 0
        | Some (penta, plen) =>
            if plen >? 35 then 0 else encodePenta g penta plen
        end
  end.

(** ** Character tables *)

Definition initPenta (c _penta _plen : Z) (g : globals) : globals :=
  {| pentas := arr_set (pentas g) c _penta;
     plength := arr_set (plength g) c _plen;
     characters := arr_set (characters g) _penta (to_jChar c);
     WILDCARD_CIPHER := WILDCARD_CIPHER g |}.

(** [for (; --i >= 0;) plength[i] = 64;] started at [i = n]. *)
Fixpoint fill_plength (n : nat) (pl : list Z) : list Z :=
  match n with
  | O => pl
  | S i => fill_plength i (arr_set pl (Z.of_nat i) 64)
  end.

(** One iteration of the loop over [' '..'~']. *)
Definition init_printable (st : globals * Z) (i : Z) : globals * Z :=
  let (g, penta) := st in
  if (arr_get (pentas g) i =? 0)
     && negb (i =? chr "'") && negb (i =? chr "`")
  then (initPenta i penta 10 g, to_jInt (penta + 1))
  else (g, penta).

(** How control leaves [initSymbolCodec], which is declared to return a
    [dx_result_t]: through [return setParseError(e)] (line 126), or by
    reaching the closing brace (line 128).  No [return] statement is
    executed on the second way, so the source defines no result for the
    caller there. *)
Inductive init_exit := ReturnError (e : parse_error) | EndReached.

(** [initSymbolCodec].  The only [return] of the source sits inside the
    final test; when that test passes, control reaches the end of the
    function. *)
Definition initSymbolCodec (g : globals) : init_exit * globals :=
  let g1 := {| pentas := replicate (Z.to_nat penta_length) 0;
               plength := fill_plength (Z.to_nat penta_length) (plength g);
               characters := replicate 1024 0;
               WILDCARD_CIPHER := WILDCARD_CIPHER g |} in
  let g2 := fold_left (fun g i => initPenta i (i - chr "A" + 1) 5 g)
              (seqZ (chr "A") (chr "Z" - chr "A" + 1)) g1 in
  let g3 := initPenta (chr ".") 27 5 g2 in
  let g4 := initPenta (chr "/") 28 5 g3 in
  let g5 := initPenta (chr "$") 29 5 g4 in
  let (g6, penta) := fold_left init_printable (seqZ 32 95) (g5, 0x03C0) in
  if negb (penta =? 0x0400) then (ReturnError pr_internal_error, g6)
  else (EndReached, g6).

(** The state of the globals when the program starts: arrays at file scope
    are zero-filled, and the initializer of [WILDCARD_CIPHER] (line 90)
    runs over those zero-filled arrays, before any call of
    [initSymbolCodec]. *)
Definition zeroed : globals :=
  {| pentas := replicate (Z.to_nat penta_length) 0;
     plength := replicate (Z.to_nat penta_length) 0;
     characters := replicate 1024 0;
     WILDCARD_CIPHER := 0 |}.

Definition startup : globals :=
  {| pentas := pentas zeroed;
     plength := plength zeroed;
     characters := characters zeroed;
     WILDCARD_CIPHER := encode zeroed (Some (jstr "*")) |}.

(** The globals once [initSymbolCodec] has run. *)
Definition initialized : globals := snd (initSymbolCodec startup).

(** ** Eligible characters (the table in the header comment of the source) *)

(** ['A'..'Z'], ['.'], ['/'] and ['$'] carry 5-bit pentas. *)
Definition five_bit (c : Z) : bool :=
  ((chr "A" <=? c) && (c <=? chr "Z"))
  || (c =? chr ".") || (c =? chr "/") || (c =? chr "$").

(** [' '..'~'] except the above, the apostrophe and the backtick carry
    10-bit pentas. *)
Definition ten_bit (c : Z) : bool :=
  (chr " " <=? c) && (c <=? chr "~") && negb (five_bit c)
  && negb (c =? chr "'") && negb (c =? chr "`").

Definition eligible (c : Z) : bool := five_bit c || ten_bit c.

(** The members of the penta set [{1..29} ∪ {960..1023}]. *)
Definition penta_set (p : Z) : bool :=
  ((1 <=? p) && (p <=? 29)) || ((960 <=? p) && (p <=? 1023)).

(** The bit length of a packed symbol: the sum of the table lengths of its
    characters. *)
Definition packed_plen (g : globals) (s : jstring) : Z :=
  foldr (fun c acc => arr_get (plength g) c + acc) 0 s.

(** ** Width of a packed penta *)

(** [int plen = 0; while ((penta >>> plen) != 0) plen += 5;] of
    [readSymbol], with fuel for the iterations; [None] when the fuel runs
    out. *)
Fixpoint plen_loop (fuel : nat) (penta plen : Z) : option Z :=
  match fuel with
  | O => None
  | S fuel' =>
      if jlong_ushr penta plen =? 0 then Some plen
      else plen_loop fuel' penta (to_jInt (plen + 5))
  end.

Definition plen_fuel : nat := 64.

Definition infer_plen (penta : Z) : option Z := plen_loop plen_fuel penta 0.

(** ** Rendering a packed penta *)

(** Modelled from the spec: the lookup through [char_of] that
    [penta_to_string] performs; [toString] is called by [readSymbol] but its
    body is not in the source.  Unused penta values in the table decode to
    fail: a slot of [characters] still holding 0 is unused. *)
Definition char_of (g : globals) (p : Z) : option Z :=
  let c := arr_get (characters g) p in
  if c =? 0 then None else Some c.

(** Modelled from the spec: [penta_to_string] over [n] remaining 5-bit
    groups, missing from the source.  Peel 5- or 10-bit groups from the
    top; each group maps through [char_of].  Groups of value 30 or 31 are
    the escape marks indicating the next 5 bits must be concatenated to form
    a 10-bit penta (30·32 + low5 or 31·32 + low5). *)
Fixpoint peel (g : globals) (n : nat) (penta : Z) : option jstring :=
  match n with
  | O => Some []
  | S n1 =>
      let hi := Z.land (Z.shiftr penta (5 * Z.of_nat n1)) 0x1F in
      if (hi =? 30) || (hi =? 31) then
        match n1 with
        | O => None
        | S n2 =>
            let low5 := Z.land (Z.shiftr penta (5 * Z.of_nat n2)) 0x1F in
            match char_of g (hi * 32 + low5), peel g n2 penta with
            | Some c, Some rest => Some (c :: rest)
            | _, _ => None
            end
        end
      else
        match char_of g hi, peel g n1 penta with
        | Some c, Some rest => Some (c :: rest)
        | _, _ => None
        end
  end.

(** Modelled from the spec: [penta_to_string(penta, plen)], missing from the
    source. *)
Definition penta_to_string (g : globals) (penta plen : Z) : option jstring :=
  peel g (Z.to_nat (plen / 5)) penta.

(** Modelled from the spec: the [plen] that [decode_cipher] returns next to
    the penta, which the source's [decodeCipher] does not compute: for tag 1
    the smallest multiple of 5 with [penta >> plen == 0], for tags 2 and 3
    the constant 35. *)
Definition decode_plen (cipher penta : Z) : option Z :=
  if Z.shiftr (to_uInt cipher) 30 =? 1 then infer_plen penta else Some 35.

(** [q] is the smallest multiple of 5 with [penta >> q == 0]. *)
Definition smallest_plen (penta q : Z) : Prop :=
  0 <= q /\ q mod 5 = 0 /\ Z.shiftr penta q = 0 /\
  forall q', 0 <= q' -> q' mod 5 = 0 -> Z.shiftr penta q' = 0 -> q <= q'.

(** ** The byte source ([BufferedInput.h], outside the source tree) *)

Inductive exn :=
| IOException (msg : string)
| UTFDataFormatException (msg : string).

(** What a call does: return a value, throw, or never return (only the
    width loop of [readSymbol] can run out of fuel). *)
Inductive outcome (A : Type) :=
| Returned (a : A)
| Thrown (e : exn)
| Diverged.
Arguments Returned {A} a.
Arguments Thrown {A} e.
Arguments Diverged {A}.

(** The operations [readSymbol] consumes.  Each takes the state of the
    source and gives the outcome with the state it leaves behind.  The range
    laws are the result types of the operations: an unsigned byte, an
    unsigned short and a 32-bit signed integer. *)
Class BufferedInput (I : Type) := {
  readUnsignedByte : I -> outcome Z * I;
  readUnsignedShort : I -> outcome Z * I;
  readInt : I -> outcome Z * I;
  readCompactLong : I -> outcome Z * I;
  readUTFChar : I -> outcome Z * I;
  readUTFString : I -> outcome (option jstring) * I;
  readUnsignedByte_range : forall i v i',
    readUnsignedByte i = (Returned v, i') -> 0 <= v < 2 ^ 8;
  readUnsignedShort_range : forall i v i',
    readUnsignedShort i = (Returned v, i') -> 0 <= v < 2 ^ 16;
  readInt_range : forall i v i',
    readInt i = (Returned v, i') -> is_jInt v
}.

(** ** The wire reader *)

(** What [readSymbol] can change: the source, the caller's scratch buffer
    and slot 0 of the caller's [result] array. *)
Record reader (I : Type) := Reader {
  rd_in : I;
  rd_buffer : list Z;
  rd_result : option jstring
}.
Arguments Reader {I} _ _ _.
Arguments rd_in {I} _.
Arguments rd_buffer {I} _.
Arguments rd_result {I} _.

(** State and exceptions threaded through [readSymbol]. *)
Definition M (I A : Type) : Type := reader I -> outcome A * reader I.

Definition ret {I A} (a : A) : M I A := fun st => (Returned a, st).

Definition throw {I A} (e : exn) : M I A := fun st => (Thrown e, st).

Definition diverge {I A} : M I A := fun st => (Diverged, st).

Definition bind {I A B} (m : M I A) (k : A -> M I B) : M I B :=
  fun st =>
    match m st with
    | (Returned a, st') => k a st'
    | (Thrown e, st') => (Thrown e, st')
    | (Diverged, st') => (Diverged, st')
    end.

Notation "'let!' x ':=' m 'in' k" := (bind m (fun x => k))
  (at level 10, x name, m at level 100, k at level 200).

(** A call on the source. *)
Definition on_in {I A} (op : I -> outcome A * I) : M I A :=
  fun st =>
    let (r, i') := op (rd_in st) in
    (r, Reader i' (rd_buffer st) (rd_result st)).

Definition get_buffer {I} : M I (list Z) := fun st => (Returned (rd_buffer st), st).

Definition set_buffer {I} (b : list Z) : M I unit :=
  fun st => (Returned tt, Reader (rd_in st) b (rd_result st)).

(** [result[0] = s;] *)
Definition set_result {I} (s : option jstring) : M I unit :=
  fun st => (Returned tt, Reader (rd_in st) (rd_buffer st) s).

Definition Integer_MAX_VALUE : Z := 2 ^ 31 - 1.

Section ReadSymbol.

Context {I : Type} `{BufferedInput I}.

(** The tables in force. *)
Variable g : globals.

(** The constant [VALID_CIPHER], declared outside the source tree. *)
Variable VALID_CIPHER : Z.

(** [toString(long penta)], defined outside the source tree. *)
Variable toString : Z -> outcome jstring.

(** The loop of the CESU-8 branch, [n] iterations from index [k].  When
    [shared], [chars] is the caller's buffer itself and each store lands in
    it. *)
Fixpoint read_chars (shared : bool) (n : nat) (k : Z) (chars : list Z)
  : M I (list Z) :=
  match n with
  | O => ret chars
  | S n' =>
      let! codePoint := on_in readUTFChar in
      if codePoint >? 0xFFFF then
        throw (UTFDataFormatException "Code point is beyond BMP.")
      else
        let chars' := arr_set chars k (to_jChar codePoint) in
        let! _ := (if shared then set_buffer chars' else ret tt) in
        read_chars shared n' (k + 1) chars'
  end.

(** The CESU-8 branch (lines 215-235). *)
Definition read_cesu8 : M I Z :=
  let! length := on_in readCompactLong in
  if (length <? -1) || (length >? Integer_MAX_VALUE) then
    throw (IOException "Illegal length.")
  else if length =? -1 then
    let! _ := set_result None in ret 0
  else if length =? 0 then
    let! _ := set_result (Some []) in ret 0
  else
    let! buffer := get_buffer in
    let shared := length <=? Z.of_nat (List.length buffer) in
    let chars := if shared then buffer
                 else replicate (Z.to_nat (to_jInt length)) 0 in
    let! chars := read_chars shared (Z.to_nat length) 0 chars in
    if shared && (Z.land length VALID_CIPHER =? 0) then
      ret (to_jInt length)
    else
      let! _ := set_result (Some (take (Z.to_nat (to_jInt length)) chars)) in
      ret 0.

(** The dispatch on the first byte (lines 196-241): [inl v] is a
    [return v] inside the chain, [inr penta] leaves the chain with the
    penta assigned. *)
Definition read_penta : M I (Z + Z) :=
  let! i := on_in readUnsignedByte in
  if i <? 0x80 then
    let! b := on_in readUnsignedByte in
    ret (inr (to_jInt (jint_shl i 8 + b)))
  else if i <? 0xC0 then
    let! b := on_in readUnsignedByte in
    let! s := on_in readUnsignedShort in
    ret (inr (to_jInt (to_jInt (jint_shl (Z.land i 0x3F) 24 + jint_shl b 16)
                       + s)))
  else if i <? 0xE0 then
    throw (IOException "Reserved bit sequence.")
  else if i <? 0xF0 then
    let! s := on_in readUnsignedShort in
    ret (inr (to_jInt (jint_shl (Z.land i 0x0F) 16 + s)))
  else if i <? 0xF8 then
    let! x := on_in readInt in
    ret (inr (to_jLong (jlong_shl (Z.land i 0x07) 32 + Z.land x 0xFFFFFFFF)))
  else if i <? 0xFC then
    throw (IOException "Reserved bit sequence.")
  else if i =? 0xFC then
    let! s := on_in readUTFString in
    let! _ := set_result s in
    ret (inl 0)
  else if i =? 0xFD then
    let! r := read_cesu8 in ret (inl r)
  else if i =? 0xFE then
    ret (inr 0)
  else
    let! _ := set_result None in
    ret (inl 0).

(** Lines 242-248: the width loop, [encodePenta] and the fallback. *)
Definition cipher_of_penta (penta : Z) : M I Z :=
  match infer_plen penta with
  | None => diverge
  | Some plen =>
      let cipher := encodePenta g penta plen in
      let! _ := (if cipher =? 0 then
                   let! s := (fun st => (toString penta, st)) in
                   set_result (Some s)
                 else ret tt) in
      ret cipher
  end.

Definition readSymbol : M I Z :=
  let! r := read_penta in
  match r with
  | inl v => ret v
  | inr penta => cipher_of_penta penta
  end.

(** A computation that leaves slot 0 of [result] as it found it. *)
Definition keeps_result {A} (m : M I A) : Prop :=
  forall st r st', m st = (r, st') -> rd_result st' = rd_result st.

(** A computation that may write slot 0 of [result] only when it returns
    0. *)
Definition writes_only_with_zero (m : M I Z) : Prop :=
  forall st v st',
    m st = (Returned v, st') -> v <> 0 -> rd_result st' = rd_result st.

(** The source delivers the characters [cs] one after the other through
    [readUTFChar], going from state [i] to state [i']. *)
Inductive reads_chars : I -> list Z -> I -> Prop :=
| reads_nil (i : I) : reads_chars i [] i
| reads_cons (i : I) (c : Z) (i1 : I) (cs : list Z) (i2 : I) :
    readUTFChar i = (Returned c, i1) ->
    reads_chars i1 cs i2 ->
    reads_chars i (c :: cs) i2.

(** A computation that stores into slot 0 of [result] only when it
    returns. *)
Definition quiet_on_failure {A} (m : M I A) : Prop :=
  forall st r st',
    m st = (r, st') -> (forall v, r <> Returned v) ->
    rd_result st' = rd_result st.

(** A computation whose initial and final states are related by [R]. *)
Definition respects {A} (R : reader I -> reader I -> Prop) (m : M I A) : Prop :=
  forall st r st', m st = (r, st') -> R st st'.

(** The scratch buffer is as it was. *)
Definition same_buffer (st st' : reader I) : Prop :=
  rd_buffer st' = rd_buffer st.

(** The scratch buffer has the length it had. *)
Definition same_buffer_length (st st' : reader I) : Prop :=
  length (rd_buffer st') = length (rd_buffer st).

(** A computation that returns or throws. *)
Definition converges {A} (m : M I A) : Prop :=
  forall st, fst (m st) <> Diverged.

(** No operation of the source blocks for ever. *)
Definition source_converges : Prop :=
  (forall i, fst (readUnsignedByte i) <> Diverged) /\
  (forall i, fst (readUnsignedShort i) <> Diverged) /\
  (forall i, fst (readInt i) <> Diverged) /\
  (forall i, fst (readCompactLong i) <> Diverged) /\
  (forall i, fst (readUTFChar i) <> Diverged) /\
  (forall i, fst (readUTFString i) <> Diverged).

End ReadSymbol.

(** ** A byte source over a list of bytes *)

Definition EOF : exn := IOException "End of input.".

Definition u8 (b : byte) : Z := Z.of_N (Byte.to_N b).

Definition bytes_u8 (bs : list byte) : outcome Z * list byte :=
  match bs with
  | b :: r => (Returned (u8 b), r)
  | _ => (Thrown EOF, [])
  end.

(** Big-endian unsigned 16 bits. *)
Definition bytes_u16be (bs : list byte) : outcome Z * list byte :=
  match bs with
  | b1 :: b0 :: r => (Returned (u8 b1 * 2 ^ 8 + u8 b0), r)
  | _ => (Thrown EOF, [])
  end.

(** Big-endian signed 32 bits. *)
Definition bytes_i32be (bs : list byte) : outcome Z * list byte :=
  match bs with
  | b3 :: b2 :: b1 :: b0 :: r =>
      (Returned (to_jInt (u8 b3 * 2 ^ 24 + u8 b2 * 2 ^ 16 + u8 b1 * 2 ^ 8 + u8 b0)), r)
  | _ => (Thrown EOF, [])
  end.

(** The one-byte form of a compact long: 7 bits, sign-extended.  Longer
    forms are refused by this source. *)
Definition bytes_compact1 (bs : list byte) : outcome Z * list byte :=
  match bs with
  | b :: r =>
      if u8 b <? 0x80 then
        (Returned (if u8 b <? 0x40 then u8 b else u8 b - 0x80), r)
      else (Thrown (IOException "Unsupported compact form."), r)
  | _ => (Thrown EOF, [])
  end.

(** The one-byte form of a UTF character. *)
Definition bytes_utf1 (bs : list byte) : outcome Z * list byte :=
  match bs with
  | b :: r =>
      if u8 b <? 0x80 then (Returned (u8 b), r)
      else (Thrown (UTFDataFormatException "Unsupported UTF form."), r)
  | _ => (Thrown EOF, [])
  end.

Definition bytes_no_string (bs : list byte)
  : outcome (option jstring) * list byte :=
  (Thrown (IOException "Unsupported UTF string."), bs).

#[export] Instance ByteInput : BufferedInput (list byte).
Proof.
  assert (Hu8 : forall b, 0 <= u8 b < 2 ^ 8).
  { intros b. unfold u8. pose proof (Byte.to_N_bounded b). lia. }
  refine {| readUnsignedByte := bytes_u8;
            readUnsignedShort := bytes_u16be;
            readInt := bytes_i32be;
            readCompactLong := bytes_compact1;
            readUTFChar := bytes_utf1;
            readUTFString := bytes_no_string |}.
  - intros [|b r] v i' E; inversion E; subst. apply Hu8.
  - intros [|b1 [|b0 r]] v i' E; inversion E; subst.
    pose proof (Hu8 b1). pose proof (Hu8 b0). lia.
  - intros [|b3 [|b2 [|b1 [|b0 r]]]] v i' E; inversion E; subst.
    unfold is_jInt, to_jInt.
    pose proof (Z.mod_pos_bound
      (u8 b3 * 2 ^ 24 + u8 b2 * 2 ^ 16 + u8 b1 * 2 ^ 8 + u8 b0 + 2 ^ 31)
      (2 ^ 32)). lia.
Defined.

(** [toString] as the spec describes it: the width is inferred, the groups
    are peeled; a failure of either surfaces as an exception. *)
Definition toString (g : globals) (penta : Z) : outcome jstring :=
  match infer_plen penta with
  | None => Diverged
  | Some plen =>
      match penta_to_string g penta plen with
      | Some s => Returned s
      | None => Thrown (IOException "Unused penta.")
      end
  end.

(** [VALID_CIPHER] of the Java original, for running the reader on
    examples. *)
Definition VALID_CIPHER_java : Z := 0xC0000000.

Definition run (bs : list byte) (buffer : list Z) (result : option jstring)
  : outcome Z * reader (list byte) :=
  readSymbol initialized VALID_CIPHER_java (toString initialized)
    (Reader bs buffer result).

(** ** A source scripted by the values its operations return *)

(** Each operation consumes the next value of the script and returns it,
    cut to the range of its result type. *)
Definition script_next (cut : Z -> Z) (vs : list Z) : outcome Z * list Z :=
  match vs with
  | v :: r => (Returned (cut v), r)
  | [] => (Thrown EOF, [])
  end.

Definition script_no_string (vs : list Z)
  : outcome (option jstring) * list Z :=
  (Thrown (IOException "Unsupported UTF string."), vs).

Definition ScriptInput : BufferedInput (list Z).
Proof.
  refine {| readUnsignedByte := script_next (fun v => v mod 2 ^ 8);
            readUnsignedShort := script_next (fun v => v mod 2 ^ 16);
            readInt := script_next to_jInt;
            readCompactLong := script_next (fun v => v);
            readUTFChar := script_next (fun v => v);
            readUTFString := script_no_string |}.
  - intros [|v r] x i' E; inversion E; subst.
    apply Z.mod_pos_bound. reflexivity.
  - intros [|v r] x i' E; inversion E; subst.
    apply Z.mod_pos_bound. reflexivity.
  - intros [|v r] x i' E; inversion E; subst.
    unfold is_jInt, to_jInt.
    pose proof (Z.mod_pos_bound (v + 2 ^ 31) (2 ^ 32) eq_refl). lia.
Defined.

(** ** The listener registry of [DXSubscription]
       ([wrappers/COM/src/Subscription.cpp]) *)

Inductive HRESULT :=
| S_OK
| E_POINTER
| CONNECT_E_CANNOTCONNECT
| DISP_E_UNKNOWNNAME.

(** The members of [DXSubscription] that [Advise] and [Unadvise] touch.
    Pointers are addresses; [released] records the listeners on which
    [Release()] has been called, latest first.  Both methods run under
    [m_listenerGuard], so each is one step. *)
Record subscription := Subscription {
  m_listeners : gmap Z Z;       (* std::map<DWORD, IDispatch*> *)
  m_listenerMethodId : Z;       (* DISPID *)
  m_listener_next_id : Z;       (* DWORD *)
  released : list Z
}.

(** [DWORD]: 32-bit unsigned. *)
Definition to_DWORD (x : Z) : Z := x mod 2 ^ 32.

(** The members as the constructors leave them, for the method id that
    [GetMethodId] delivered (0 when it failed). *)
Definition new_subscription (methodId : Z) : subscription :=
  {| m_listeners := ∅;
     m_listenerMethodId := methodId;
     m_listener_next_id := 1;
     released := [] |}.

(** The scan of [Advise] for a listener that is already in the map. *)
Definition already_added (listener : Z) (m : gmap Z Z) : bool :=
  existsb (fun kv => snd kv =? listener) (map_to_list m).

(** [Advise].  [pUnkSink] is [None] for a null pointer and [out] tells
    whether [pdwCookie] is non-null; [QueryInterface sink] is the listener
    that the sink hands out when it answers [S_OK].  The result carries the
    value left in [*pdwCookie], if it was written. *)
Definition Advise (QueryInterface : Z -> option Z) (pUnkSink : option Z)
    (out : bool) (s : subscription) : HRESULT * option Z * subscription :=
  match pUnkSink, out with
  | Some sink, true =>
      match QueryInterface sink with
      | None => (CONNECT_E_CANNOTCONNECT, Some 0, s)
      | Some listener =>
          if already_added listener (m_listeners s) then (S_OK, Some 0, s)
          else if m_listenerMethodId s =? 0 then
            (DISP_E_UNKNOWNNAME, Some 0, s)
          else
            let cookie := m_listener_next_id s in
            (S_OK, Some cookie,
             {| m_listeners := <[cookie := listener]> (m_listeners s);
                m_listenerMethodId := m_listenerMethodId s;
                m_listener_next_id := to_DWORD (cookie + 1);
                released := released s |})
      end
  | _, _ => (E_POINTER, None, s)
  end.

(** [Unadvise]. *)
Definition Unadvise (dwCookie : Z) (s : subscription)
  : HRESULT * subscription :=
  match m_listeners s !! dwCookie with
  | None => (E_POINTER, s)
  | Some listener =>
      (S_OK,
       {| m_listeners := delete dwCookie (m_listeners s);
          m_listenerMethodId := m_listenerMethodId s;
          m_listener_next_id := m_listener_next_id s;
          released := listener :: released s |})
  end.

(** The registry is in order: the counter has not wrapped, every cookie in
    use is a non-zero value below the counter, and no listener is
    registered under two cookies. *)
Definition registry_ok (s : subscription) : Prop :=
  1 <= m_listener_next_id s < 2 ^ 32 /\
  (forall k l, m_listeners s !! k = Some l -> 1 <= k < m_listener_next_id s) /\
  (forall k1 k2 l,
     m_listeners s !! k1 = Some l -> m_listeners s !! k2 = Some l -> k1 = k2).

(** A call on the registry, and a sequence of calls. *)
Inductive registry_call :=
| call_Advise (pUnkSink : option Z) (out : bool)
| call_Unadvise (dwCookie : Z).

Definition do_call (QueryInterface : Z -> option Z) (s : subscription)
    (c : registry_call) : subscription :=
  match c with
  | call_Advise pUnkSink out => snd (Advise QueryInterface pUnkSink out s)
  | call_Unadvise dwCookie => snd (Unadvise dwCookie s)
  end.

Definition do_calls (QueryInterface : Z -> option Z)
    (cs : list registry_call) (s : subscription) : subscription :=
  fold_left (do_call QueryInterface) cs s.

(** A sink table for running the registry on examples: sink 7 refuses the
    listener interface, every other sink hands out a listener. *)
Definition example_QueryInterface (sink : Z) : option Z :=
  if sink =? 7 then None else Some (sink + 100).

(** ** Notions used in the statements *)

(** The arrays have their declared sizes. *)
Definition sized (g : globals) : Prop :=
  length (pentas g) = 128%nat /\ length (plength g) = 128%nat /\
  length (characters g) = 1024%nat.

Abbreviation PENTA c := (arr_get (pentas initialized) c).
Abbreviation PLEN c := (arr_get (plength initialized) c).
Abbreviation CHAR p := (arr_get (characters initialized) p).

(** What the tables hold for one character code. *)
Definition char_row_ok (c : Z) : bool :=
  if five_bit c then
    (PLEN c =? 5) && (1 <=? PENTA c) && (PENTA c <=? 29)
    && (CHAR (PENTA c) =? c)
  else if ten_bit c then
    (PLEN c =? 10) && (960 <=? PENTA c) && (PENTA c <=? 1023)
    && (CHAR (PENTA c) =? c)
  else (PLEN c =? 64) && (PENTA c =? 0).

(** What the inverse table holds for one penta. *)
Definition penta_row_ok (p : Z) : bool :=
  if penta_set p then eligible (CHAR p) && (PENTA (CHAR p) =? p)
  else CHAR p =? 0.

(** [L] is the width of [penta]: a multiple of 5 that covers it, whose top
    group is not zero. *)
Definition width_of (penta L : Z) : Prop :=
  0 <= L <= 35 /\ L mod 5 = 0 /\ 0 <= penta < 2 ^ L /\
  (L = 0 \/ 2 ^ (L - 5) <= penta).

(** The tag of a cipher: its top two bits. *)
Definition tag (cipher : Z) : Z := Z.shiftr (to_uInt cipher) 30.

(** The number of 5-bit groups of a symbol. *)
Definition groups (s : jstring) : nat :=
  foldr (fun c acc => (Z.to_nat (PLEN c / 5) + acc)%nat) 0%nat s.

(** The packed penta of a symbol, first character in the highest bits. *)
Fixpoint packed (s : jstring) : Z :=
  match s with
  | [] => 0
  | c :: r => PENTA c * 2 ^ packed_plen initialized r + packed r
  end.

Definition all_eligible (s : jstring) : Prop :=
  Forall (fun c => eligible c = true) s.

(** A character that is not eligible: a code of 128 or more, the
    apostrophe, the backtick, or any other character whose table length is
    64. *)
Definition ineligible (c : Z) : Prop :=
  128 <= c \/ c = chr "'" \/ c = chr "`" \/ PLEN c = 64.

(** The 10-bit pentas grow with the character code. *)
Definition ten_bit_ordered (c1 c2 : Z) : bool :=
  implb (ten_bit c1 && ten_bit c2 && (c1 <? c2)) (PENTA c1 <? PENTA c2).

(** * Properties *)

(** ** Tactics and arithmetic of the fixed-width types *)

(** Replace character literals and powers of two by their values. *)
Ltac literals :=
  repeat match goal with
  | |- context [chr ?a] =>
      let v := eval vm_compute in (chr a) in change (chr a) with v
  | H : context [chr ?a] |- _ =>
      let v := eval vm_compute in (chr a) in change (chr a) with v in H
  end.

Ltac pow2 :=
  repeat match goal with
  | |- context [2 ^ Zpos ?n] =>
      let v := eval vm_compute in (2 ^ Zpos n) in change (2 ^ Zpos n) with v
  | H : context [2 ^ Zpos ?n] |- _ =>
      let v := eval vm_compute in (2 ^ Zpos n) in
      change (2 ^ Zpos n) with v in H
  end.

Ltac divmod := pow2; Z.to_euclidean_division_equations; lia.

Ltac wide H :=
  split; [lia|]; split; [reflexivity|]; split; [lia|]; right; exact H.

Lemma to_jInt_id x : is_jInt x -> to_jInt x = x.
Proof. unfold is_jInt, to_jInt. intros. divmod. Qed.

Lemma to_jLong_id x : - 2 ^ 63 <= x < 2 ^ 63 -> to_jLong x = x.
Proof. unfold to_jLong. intros. divmod. Qed.

Lemma to_uLong_id x : 0 <= x < 2 ^ 64 -> to_uLong x = x.
Proof. unfold to_uLong. intros. apply Z.mod_small. lia. Qed.

Lemma forallb_seqZ (f : Z -> bool) (a n : Z) :
  forallb f (seqZ a n) = true -> forall x, a <= x < a + n -> f x = true.
Proof.
  intros Hf x Hx. rewrite forallb_forall in Hf. apply Hf.
  apply list_elem_of_In, elem_of_seqZ. lia.
Qed.

(** ** The character tables after [initSymbolCodec] *)

Lemma eligible_range c : eligible c = true -> 32 <= c <= 126.
Proof. unfold eligible, ten_bit, five_bit. literals. lia. Qed.

Lemma fill_plength_drop n : forall pl,
  (n <= length pl)%nat -> fill_plength n pl = replicate n 64 ++ drop n pl.
Proof.
  induction n as [|n IH]; intros pl Hn; simpl.
  - now rewrite drop_0.
  - unfold arr_set. rewrite Nat2Z.id, IH by (rewrite length_insert; lia).
    rewrite drop_insert_ge by lia. rewrite Nat.sub_diag.
    destruct (lookup_lt_is_Some_2 pl n) as [x Hx]; [lia|].
    rewrite (drop_S _ _ _ Hx). simpl.
    rewrite cons_middle, app_assoc, <- replicate_S_end. reflexivity.
Qed.

(** [initSymbolCodec] rebuilds the three tables whatever they held, and
    leaves [WILDCARD_CIPHER] alone. *)
Lemma initSymbolCodec_eq g :
  sized g ->
  initSymbolCodec g =
    (EndReached, Globals (pentas initialized) (plength initialized)
             (characters initialized) (WILDCARD_CIPHER g)).
Proof.
  intros (_ & Hl & _). unfold initSymbolCodec.
  rewrite fill_plength_drop by (rewrite Hl; vm_compute; lia).
  rewrite drop_ge by (rewrite Hl; vm_compute; lia).
  vm_compute. reflexivity.
Qed.

Lemma char_rows : forall c, 0 <= c < 128 -> char_row_ok c = true.
Proof. apply (forallb_seqZ char_row_ok 0 128). vm_compute. reflexivity. Qed.

Lemma penta_rows : forall p, 0 <= p < 1024 -> penta_row_ok p = true.
Proof. apply (forallb_seqZ penta_row_ok 0 1024). vm_compute. reflexivity. Qed.

Lemma five_bit_row c :
  five_bit c = true ->
  c < 128 /\ PLEN c = 5 /\ 1 <= PENTA c <= 29 /\ CHAR (PENTA c) = c.
Proof.
  intros Hc. assert (32 <= c <= 126) as Hr.
  { apply eligible_range. unfold eligible. now rewrite Hc. }
  pose proof (char_rows c ltac:(lia)) as Hrow. unfold char_row_ok in Hrow.
  rewrite Hc in Hrow. lia.
Qed.

Lemma ten_bit_row c :
  ten_bit c = true ->
  c < 128 /\ PLEN c = 10 /\ 960 <= PENTA c <= 1023 /\ CHAR (PENTA c) = c.
Proof.
  intros Hc. assert (32 <= c <= 126) as Hr.
  { apply eligible_range. unfold eligible. rewrite Hc. apply orb_true_r. }
  assert (five_bit c = false) as Hf.
  { unfold ten_bit in Hc. destruct (five_bit c); [exfalso; lia|reflexivity]. }
  pose proof (char_rows c ltac:(lia)) as Hrow. unfold char_row_ok in Hrow.
  rewrite Hf, Hc in Hrow. lia.
Qed.

Lemma eligible_row c :
  eligible c = true ->
  penta_set (PENTA c) = true /\ (PLEN c = 5 \/ PLEN c = 10) /\
  CHAR (PENTA c) = c.
Proof.
  unfold eligible. intros Hc. apply orb_true_iff in Hc as [Hc|Hc].
  - apply five_bit_row in Hc. unfold penta_set. lia.
  - apply ten_bit_row in Hc. unfold penta_set. lia.
Qed.

Lemma ineligible_row c :
  0 <= c < 128 -> eligible c = false -> PLEN c = 64 /\ PENTA c = 0.
Proof.
  intros Hr Hc. pose proof (char_rows c Hr) as Hrow.
  unfold char_row_ok in Hrow. unfold eligible in Hc.
  apply orb_false_iff in Hc as [H5 H10]. rewrite H5, H10 in Hrow. lia.
Qed.

(** C4, evaluated on the code.  Whatever the arrays held, the final test of
    [initSymbolCodec] passes, so [setParseError] is not called; but control
    then reaches the closing brace of the function without a [return]
    statement, so the call hands no defined [dx_result_t] to its caller, and
    in particular no success value.  The tables it leaves are as claimed:
    the 93 eligible characters are in bijection with the pentas
    [{1..29} ∪ {960..1023}], every eligible [c] has
    [characters[pentas[c]] = c] and a length of 5 or 10, every other code
    below 128 has length 64 and penta 0, and the pentas 0, 30 and 31 belong
    to no character. *)
Theorem initSymbolCodec_tables (g : globals) :
  sized g ->
  let g' := snd (initSymbolCodec g) in
  fst (initSymbolCodec g) = EndReached /\
  length (filter (fun c => eligible c = true) (seqZ 0 penta_length)) = 93%nat /\
  (forall c, eligible c = true ->
     arr_get (characters g') (arr_get (pentas g') c) = c /\
     (arr_get (plength g') c = 5 \/ arr_get (plength g') c = 10) /\
     penta_set (arr_get (pentas g') c) = true) /\
  (forall p, penta_set p = true ->
     exists c, eligible c = true /\ arr_get (pentas g') c = p /\
       forall c', eligible c' = true -> arr_get (pentas g') c' = p -> c' = c) /\
  (forall c, 0 <= c < penta_length -> eligible c = false ->
     arr_get (plength g') c = 64 /\ arr_get (pentas g') c = 0) /\
  (forall c p, In p [0; 30; 31] ->
     arr_get (characters g') p = 0 /\
     (eligible c = true -> arr_get (pentas g') c <> p)).
Proof.
  intros Hg g'. subst g'. rewrite (initSymbolCodec_eq g Hg).
  cbn [fst snd pentas plength characters].
  split; [reflexivity|]. split; [vm_compute; reflexivity|].
  split; [|split; [|split]].
  - intros c Hc. destruct (eligible_row c Hc) as (? & ? & ?). auto.
  - intros p Hp.
    assert (0 <= p < 1024) as Hr by (unfold penta_set in Hp; lia).
    pose proof (penta_rows p Hr) as Hrow. unfold penta_row_ok in Hrow.
    rewrite Hp in Hrow. apply andb_true_iff in Hrow as [He Hq].
    exists (CHAR p). split; [exact He|]. split; [lia|].
    intros c' Hc' <-. symmetry. now apply eligible_row.
  - intros c Hr. apply ineligible_row. exact Hr.
  - intros c p Hp. split.
    + simpl in Hp. destruct Hp as [<-|[<-|[<-|[]]]]; vm_compute; reflexivity.
    + intros Hc Hq. apply eligible_row in Hc as (Hs & _ & _).
      rewrite Hq in Hs. simpl in Hp.
      destruct Hp as [<-|[<-|[<-|[]]]]; vm_compute in Hs; discriminate Hs.
Qed.

Lemma initSymbolCodec_tables_witness :
  sized startup /\ fst (initSymbolCodec startup) = EndReached.
Proof.
  assert (sized startup) as Hs by (vm_compute; auto).
  split; [exact Hs|].
  exact (proj1 (initSymbolCodec_tables startup Hs)).
Defined.

(** ** The cipher codec *)

Lemma penta_slash : PENTA (chr "/") = 28.
Proof. vm_compute. reflexivity. Qed.

Lemma penta_dollar : PENTA (chr "$") = 29.
Proof. vm_compute. reflexivity. Qed.

Lemma land_low30 x : Z.land x 0x3FFFFFFF = x mod 2 ^ 30.
Proof. change 0x3FFFFFFF with (Z.ones 30). apply Z.land_ones. lia. Qed.

Lemma shiftr_30 x : Z.shiftr x 30 = x / 2 ^ 30.
Proof. apply Z.shiftr_div_pow2. lia. Qed.

(** Setting tag bits above a 30-bit payload is an addition. *)
Lemma lor_tag a h :
  0 <= a < 2 ^ 30 -> Z.lor a (h * 2 ^ 30) = a + h * 2 ^ 30.
Proof.
  intros Ha. rewrite <- Z.lxor_lor, Z.add_nocarry_lxor; try reflexivity.
  all: rewrite <- Z.shiftl_mul_pow2 by lia; apply Z.bits_inj'; intros n Hn;
    rewrite Z.land_spec, Z.bits_0;
    destruct (Z.lt_ge_cases n 30) as [Hlt|Hge];
    [ rewrite Z.shiftl_spec_low by lia; apply andb_false_r
    | replace (Z.testbit a n) with false; [reflexivity|];
      symmetry; destruct (Z.eq_dec a 0) as [->|Hne];
      [ apply Z.bits_0
      | apply Z.bits_above_log2; [lia|];
        apply Z.lt_le_trans with 30; [|exact Hge];
        apply Z.log2_lt_pow2; lia ] ].
Qed.

Lemma pow2_le_mono a b : 0 <= a <= b -> 2 ^ a <= 2 ^ b.
Proof. intros. apply Z.pow_le_mono_r; lia. Qed.

(** C3. For [plen <= 35] and a penta within its low [plen] bits,
    [encodePenta] returns [penta | 0x40000000] when [plen <= 30]; above 30
    it returns the low 30 bits tagged [0x80000000] when [penta >> 30] is 28
    (the penta of ['/']), tagged [0xC0000000] when it is 29 (the penta of
    ['$']), and 0 otherwise; and a match against 28 or 29 forces
    [plen = 35]. *)
Theorem encodePenta_cases (penta plen : Z) :
  plen <= 35 -> 0 <= penta < 2 ^ plen ->
  let cipher := encodePenta initialized penta plen in
  let hi := Z.shiftr penta 30 in
  (plen <= 30 -> to_uInt cipher = Z.lor penta 0x40000000) /\
  (plen > 30 -> hi = PENTA (chr "/") ->
     to_uInt cipher = Z.lor (Z.land penta 0x3FFFFFFF) 0x80000000) /\
  (plen > 30 -> hi = PENTA (chr "$") ->
     to_uInt cipher = Z.lor (Z.land penta 0x3FFFFFFF) 0xC0000000) /\
  (plen > 30 -> hi <> PENTA (chr "/") -> hi <> PENTA (chr "$") ->
     cipher = 0) /\
  PENTA (chr "/") = 28 /\ PENTA (chr "$") = 29 /\
  (hi = 28 \/ hi = 29 -> plen = 35).
Proof.
  intros Hp Hr cipher hi. subst cipher hi. unfold encodePenta.
  rewrite penta_slash, penta_dollar, !shiftr_30.
  assert (0 <= plen) as Hp0.
  { destruct (Z.lt_ge_cases plen 0) as [Hn|]; [|assumption].
    rewrite Z.pow_neg_r in Hr by assumption. lia. }
  assert (penta < 2 ^ 35) as H35.
  { pose proof (pow2_le_mono plen 35 ltac:(lia)). lia. }
  assert (to_jInt (to_uLong penta / 2 ^ 30) = penta / 2 ^ 30) as Hc.
  { rewrite to_uLong_id by (pow2; lia).
    apply to_jInt_id. unfold is_jInt. divmod. }
  rewrite Hc. clear Hc.
  assert (forall h, 0 <= h < 4 ->
    Z.lor (Z.land penta 0x3FFFFFFF) (h * 2 ^ 30) = penta mod 2 ^ 30 + h * 2 ^ 30)
    as Hlor.
  { intros h Hh. rewrite land_low30. apply lor_tag. divmod. }
  repeat split.
  - intros Hle. rewrite (proj2 (Z.leb_le plen 30) Hle).
    pose proof (pow2_le_mono plen 30 ltac:(lia)).
    change 0x40000000 with (1 * 2 ^ 30). rewrite lor_tag by lia.
    unfold to_uInt, to_jInt. divmod.
  - intros Hgt Hhi. rewrite (proj2 (Z.leb_gt plen 30) ltac:(lia)).
    rewrite (proj2 (Z.eqb_eq _ _) Hhi).
    change 0x80000000 with (2 * 2 ^ 30) at 2. rewrite Hlor by lia.
    rewrite land_low30. unfold to_uInt, to_jInt. divmod.
  - intros Hgt Hhi. rewrite (proj2 (Z.leb_gt plen 30) ltac:(lia)).
    rewrite (proj2 (Z.eqb_neq (penta / 2 ^ 30) 28) ltac:(lia)).
    rewrite (proj2 (Z.eqb_eq _ _) Hhi).
    change 0xC0000000 with (3 * 2 ^ 30) at 2. rewrite Hlor by lia.
    rewrite land_low30. unfold to_uInt, to_jInt. divmod.
  - intros Hgt H28 H29. rewrite (proj2 (Z.leb_gt plen 30) ltac:(lia)).
    rewrite (proj2 (Z.eqb_neq _ 28) H28), (proj2 (Z.eqb_neq _ 29) H29).
    reflexivity.
  - intros Hhi. destruct (Z.le_gt_cases plen 34) as [Hle|Hgt]; [|lia].
    pose proof (pow2_le_mono plen 34 ltac:(lia)). exfalso. divmod.
Qed.

Lemma encodePenta_cases_witness :
  35 <= 35 /\ 0 <= 0x700000005 < 2 ^ 35 /\
  to_uInt (encodePenta initialized 0x700000005 35) = 0x80000005.
Proof.
  assert (0 <= 0x700000005 < 2 ^ 35) as Hr by (vm_compute; split; congruence).
  split; [lia|]. split; [exact Hr|].
  destruct (encodePenta_cases 0x700000005 35 ltac:(lia) Hr)
    as (_ & H28 & _).
  rewrite H28; [reflexivity|lia|vm_compute; reflexivity].
Defined.

(** ** The width loop *)

Lemma jlong_ushr_small penta plen :
  0 <= penta < 2 ^ 35 -> 0 <= plen <= 35 ->
  jlong_ushr penta plen = penta / 2 ^ plen.
Proof.
  intros Hp Hl. unfold jlong_ushr.
  rewrite to_uLong_id by (pow2; lia).
  change 63 with (Z.ones 6). rewrite Z.land_ones, Z.mod_small by (pow2; lia).
  apply Z.shiftr_div_pow2. lia.
Qed.

Lemma plen_loop_width penta L :
  width_of penta L ->
  forall m plen fuel,
    plen = L - 5 * Z.of_nat m -> 0 <= plen -> (m < fuel)%nat ->
    plen_loop fuel penta plen = Some L.
Proof.
  intros (HL & H5 & Hp & Htop).
  assert (penta < 2 ^ 35) as H35.
  { pose proof (pow2_le_mono L 35 ltac:(lia)). lia. }
  induction m as [|m IH]; intros plen fuel Hplen H0 Hfuel;
    (destruct fuel as [|fuel]; [lia|]); simpl;
    rewrite jlong_ushr_small by lia.
  - assert (plen = L) as -> by lia.
    rewrite Z.div_small by lia. reflexivity.
  - destruct Htop as [->|Htop]; [lia|].
    assert (0 < penta / 2 ^ plen) as Hpos.
    { apply Z.div_str_pos. split; [apply Z.pow_pos_nonneg; lia|].
      pose proof (pow2_le_mono plen (L - 5) ltac:(lia)). lia. }
    rewrite (proj2 (Z.eqb_neq _ 0)) by lia.
    rewrite to_jInt_id by (unfold is_jInt; pow2; lia).
    apply IH; lia.
Qed.

Lemma width_exists penta : 0 <= penta < 2 ^ 35 -> exists L, width_of penta L.
Proof.
  intros Hp. unfold width_of.
  destruct (Z.lt_ge_cases penta (2 ^ 0)) as [H0|H0].
  { exists 0. change (2 ^ 0) with 1 in *. split; [lia|].
    split; [reflexivity|]. split; [lia|]. left; reflexivity. }
  destruct (Z.lt_ge_cases penta (2 ^ 5)) as [H5|H5]; [exists 5; wide H0|].
  destruct (Z.lt_ge_cases penta (2 ^ 10)) as [H10|H10]; [exists 10; wide H5|].
  destruct (Z.lt_ge_cases penta (2 ^ 15)) as [H15|H15]; [exists 15; wide H10|].
  destruct (Z.lt_ge_cases penta (2 ^ 20)) as [H20|H20]; [exists 20; wide H15|].
  destruct (Z.lt_ge_cases penta (2 ^ 25)) as [H25|H25]; [exists 25; wide H20|].
  destruct (Z.lt_ge_cases penta (2 ^ 30)) as [H30|H30]; [exists 30; wide H25|].
  exists 35; wide H30.
Qed.

Lemma infer_plen_width penta L : width_of penta L -> infer_plen penta = Some L.
Proof.
  intros Hw. pose proof Hw as (HL & H5 & _).
  apply (plen_loop_width penta L Hw (Z.to_nat (L / 5))).
  - rewrite Z2Nat.id by (Z.to_euclidean_division_equations; lia).
    Z.to_euclidean_division_equations; lia.
  - lia.
  - unfold plen_fuel. Z.to_euclidean_division_equations; lia.
Qed.

(** The width loop returns for every penta of at most 35 bits. *)
Lemma infer_plen_total penta :
  0 <= penta < 2 ^ 35 ->
  exists L, infer_plen penta = Some L /\ width_of penta L.
Proof.
  intros Hp. destruct (width_exists penta Hp) as [L Hw].
  exists L. split; [now apply infer_plen_width|exact Hw].
Qed.

Lemma width_smallest penta L : width_of penta L -> smallest_plen penta L.
Proof.
  intros (HL & H5 & Hp & Htop). unfold smallest_plen.
  split; [lia|]. split; [exact H5|]. split.
  - rewrite Z.shiftr_div_pow2 by lia. apply Z.div_small. lia.
  - intros q Hq Hq5 Hz. destruct Htop as [->|Htop]; [lia|].
    destruct (Z.le_gt_cases L q) as [|Hlt]; [assumption|exfalso].
    rewrite Z.shiftr_div_pow2 in Hz by lia.
    assert (0 < penta / 2 ^ q); [|lia].
    apply Z.div_str_pos. split; [apply Z.pow_pos_nonneg; lia|].
    assert (q <= L - 5) by (Z.to_euclidean_division_equations; lia).
    pose proof (pow2_le_mono q (L - 5) ltac:(lia)). lia.
Qed.

Lemma width_le30 penta L : width_of penta L -> penta < 2 ^ 30 -> L <= 30.
Proof.
  intros (HL & H5 & Hp & Htop) Hlt.
  destruct (Z.le_gt_cases L 30) as [|Hgt]; [assumption|exfalso].
  destruct Htop as [->|Htop]; [lia|].
  pose proof (pow2_le_mono 30 (L - 5) ltac:(Z.to_euclidean_division_equations; lia)).
  lia.
Qed.

Lemma width_35 penta L : width_of penta L -> 2 ^ 30 <= penta -> L = 35.
Proof.
  intros (HL & H5 & Hp & Htop) Hge.
  destruct (Z.le_gt_cases L 30) as [Hle|Hgt].
  - pose proof (pow2_le_mono L 30 ltac:(lia)). lia.
  - Z.to_euclidean_division_equations; lia.
Qed.

(** ** Cipher to penta and back *)

Lemma tag_cases cipher :
  is_jInt cipher ->
  (tag cipher = 0 /\ 0 <= cipher < 2 ^ 30) \/
  (tag cipher = 1 /\ 2 ^ 30 <= cipher < 2 ^ 31) \/
  (tag cipher = 2 /\ - 2 ^ 31 <= cipher < - 2 ^ 30) \/
  (tag cipher = 3 /\ - 2 ^ 30 <= cipher < 0).
Proof.
  unfold is_jInt, tag, to_uInt. rewrite shiftr_30. intros Hc. divmod.
Qed.

(** What [decodeCipher] stores for the tags 1, 2 and 3. *)
Lemma decodeCipher_tagged cipher :
  is_jInt cipher -> tag cipher <> 0 ->
  exists penta,
    decodeCipher initialized cipher = inr penta /\
    0 <= penta < 2 ^ 35 /\
    (tag cipher = 1 -> penta = cipher - 2 ^ 30) /\
    (tag cipher = 2 -> penta = 28 * 2 ^ 30 + (cipher + 2 ^ 31)) /\
    (tag cipher = 3 -> penta = 29 * 2 ^ 30 + (cipher + 2 ^ 30)).
Proof.
  intros Hc Ht. unfold decodeCipher. fold (tag cipher).
  rewrite penta_slash, penta_dollar, land_low30.
  change (Z.shiftl 28 30) with (28 * 2 ^ 30).
  change (Z.shiftl 29 30) with (29 * 2 ^ 30).
  destruct (tag_cases cipher Hc) as [[E ?]|[[E Hr]|[[E Hr]|[E Hr]]]];
    [contradiction| | |]; rewrite E; eexists; (split; [reflexivity|]).
  - split; [divmod|]. repeat split; intros; try discriminate. divmod.
  - unfold to_jLong.
    split; [divmod|]. repeat split; intros; try discriminate. divmod.
  - unfold to_jLong.
    split; [divmod|]. repeat split; intros; try discriminate. divmod.
Qed.

(** C2, as the code has it.  For every 32-bit cipher whose tag is not 0
    (unsigned value at least [0x40000000]), [decodeCipher] succeeds and,
    with [plen] the smallest multiple of 5 such that the decoded penta
    shifted right by [plen] is zero (what the width loop returns),
    [encodePenta] gives the cipher back. *)
Theorem encodePenta_decodeCipher (cipher : Z) :
  is_jInt cipher -> tag cipher <> 0 ->
  exists penta plen,
    decodeCipher initialized cipher = inr penta /\
    infer_plen penta = Some plen /\
    smallest_plen penta plen /\
    encodePenta initialized penta plen = cipher.
Proof.
  intros Hc Ht.
  destruct (decodeCipher_tagged cipher Hc Ht) as (penta & Hd & Hp & H1 & H2 & H3).
  destruct (infer_plen_total penta Hp) as (L & HL & Hw).
  exists penta, L. split; [exact Hd|]. split; [exact HL|].
  split; [now apply width_smallest|].
  unfold encodePenta. rewrite penta_slash, penta_dollar, shiftr_30.
  rewrite to_uLong_id by (pow2; lia).
  destruct (tag_cases cipher Hc) as [[E ?]|[[E Hr]|[[E Hr]|[E Hr]]]];
    [contradiction| | |].
  - specialize (H1 E). subst penta.
    pose proof (width_le30 _ L Hw ltac:(lia)) as Hle.
    rewrite (proj2 (Z.leb_le L 30) Hle). unfold to_jInt. divmod.
  - specialize (H2 E). subst penta.
    pose proof (width_35 _ L Hw ltac:(pow2; lia)) as ->.
    change (35 <=? 30) with false. cbv iota.
    rewrite land_low30.
    replace (to_jInt ((28 * 2 ^ 30 + (cipher + 2 ^ 31)) / 2 ^ 30)) with 28
      by (unfold to_jInt; divmod).
    change (28 =? 28) with true. cbv iota. unfold to_jInt. divmod.
  - specialize (H3 E). subst penta.
    pose proof (width_35 _ L Hw ltac:(pow2; lia)) as ->.
    change (35 <=? 30) with false. cbv iota.
    rewrite land_low30.
    replace (to_jInt ((29 * 2 ^ 30 + (cipher + 2 ^ 30)) / 2 ^ 30)) with 29
      by (unfold to_jInt; divmod).
    change (29 =? 28) with false. change (29 =? 29) with true. cbv iota.
    unfold to_jInt. divmod.
Qed.

Lemma encodePenta_decodeCipher_witness :
  is_jInt 0x4000248D /\ tag 0x4000248D <> 0 /\
  exists penta plen,
    decodeCipher initialized 0x4000248D = inr penta /\
    infer_plen penta = Some plen /\
    smallest_plen penta plen /\
    encodePenta initialized penta plen = 0x4000248D.
Proof.
  assert (is_jInt 0x4000248D) as Hc by (vm_compute; split; congruence).
  assert (tag 0x4000248D <> 0) as Ht by (vm_compute; congruence).
  split; [exact Hc|]. split; [exact Ht|].
  exact (encodePenta_decodeCipher 0x4000248D Hc Ht).
Defined.

(** The claim C2 as stated fails on the non-zero ciphers with tag 0: cipher
    1 is not zero and [decodeCipher] rejects it. *)
Lemma decodeCipher_rejects_tag0 :
  is_jInt 1 /\ 1 <> 0 /\
  decodeCipher initialized 1 = inl pr_illegal_argument /\
  ~ (exists penta, decodeCipher initialized 1 = inr penta).
Proof.
  split; [vm_compute; split; congruence|]. split; [lia|].
  assert (decodeCipher initialized 1 = inl pr_illegal_argument) as E
    by (vm_compute; reflexivity).
  split; [exact E|]. intros [penta Hp]. rewrite E in Hp. discriminate Hp.
Qed.

(** ** Packing and peeling *)

Lemma eligible_cases c :
  eligible c = true ->
  32 <= c < 128 /\ CHAR (PENTA c) = c /\
  ((PLEN c = 5 /\ 1 <= PENTA c <= 29) \/
   (PLEN c = 10 /\ 960 <= PENTA c <= 1023)).
Proof.
  intros Hc. pose proof (eligible_range c Hc) as Hr.
  unfold eligible in Hc. apply orb_true_iff in Hc as [Hc|Hc].
  - apply five_bit_row in Hc. intuition lia.
  - apply ten_bit_row in Hc. intuition lia.
Qed.

Lemma packed_plen_groups s :
  all_eligible s -> packed_plen initialized s = 5 * Z.of_nat (groups s).
Proof.
  induction 1 as [|c r Hc Hr IH]; [reflexivity|].
  cbn [packed_plen groups foldr].
  fold (packed_plen initialized r). fold (groups r). rewrite IH.
  destruct (eligible_cases c Hc) as (_ & _ & [[-> _]|[-> _]]).
  - change (Z.to_nat (5 / 5)) with 1%nat. lia.
  - change (Z.to_nat (10 / 5)) with 2%nat. lia.
Qed.

Lemma packed_range s :
  all_eligible s -> 0 <= packed s < 2 ^ packed_plen initialized s.
Proof.
  induction 1 as [|c r Hc Hr IH]; [cbn; lia|].
  cbn [packed packed_plen foldr]. fold (packed_plen initialized r).
  pose proof (packed_plen_groups r Hr) as Hb.
  set (b := packed_plen initialized r) in *.
  assert (0 < 2 ^ b) as HB by (apply Z.pow_pos_nonneg; lia).
  destruct (eligible_cases c Hc) as (_ & _ & [[-> Hp]|[-> Hp]]);
    rewrite Z.pow_add_r by lia; pow2; nia.
Qed.

Lemma packed_nonempty c r :
  all_eligible (c :: r) ->
  2 ^ (packed_plen initialized (c :: r) - 5) <= packed (c :: r).
Proof.
  intros Hs. apply Forall_cons in Hs as [Hc Hr].
  cbn [packed packed_plen foldr]. fold (packed_plen initialized r).
  pose proof (packed_plen_groups r Hr) as Hb.
  pose proof (packed_range r Hr) as Hv.
  set (b := packed_plen initialized r) in *.
  assert (0 < 2 ^ b) as HB by (apply Z.pow_pos_nonneg; lia).
  destruct (eligible_cases c Hc) as (_ & _ & [[-> Hp]|[-> Hp]]).
  - replace (5 + b - 5) with b by lia. nia.
  - replace (10 + b - 5) with (5 + b) by lia.
    rewrite Z.pow_add_r by lia. pow2. nia.
Qed.

Lemma packed_width s :
  all_eligible s -> packed_plen initialized s <= 35 ->
  width_of (packed s) (packed_plen initialized s).
Proof.
  intros Hs Hle. pose proof (packed_plen_groups s Hs) as Hb.
  unfold width_of. split; [lia|].
  split; [rewrite Hb, Z.mul_comm; apply Z.mod_mul; lia|].
  split; [now apply packed_range|].
  destruct s as [|c r]; [left; reflexivity|right].
  now apply packed_nonempty.
Qed.

Lemma packed_length s :
  all_eligible s -> packed_plen initialized s <= 35 ->
  (Z.of_nat (length s) >? 7) = false.
Proof.
  intros Hs Hle. assert (5 * Z.of_nat (length s) <= packed_plen initialized s).
  { clear Hle. induction Hs as [|c r Hc Hr IH]; [cbn; lia|].
    cbn [packed_plen foldr length]. fold (packed_plen initialized r).
    destruct (eligible_cases c Hc) as (_ & _ & [[-> _]|[-> _]]); lia. }
  lia.
Qed.

(** The loop of [encode] computes [packed] without any wrap-around as long
    as the accumulated width stays within 35 bits. *)
Lemma encode_loop_packed s :
  all_eligible s ->
  forall p l,
    0 <= l -> 0 <= p < 2 ^ l -> l + packed_plen initialized s <= 35 ->
    encode_loop initialized s p l =
      Some (p * 2 ^ packed_plen initialized s + packed s,
            l + packed_plen initialized s).
Proof.
  induction 1 as [|c r Hc Hr IH]; intros p l Hl Hp Hle.
  - cbn [encode_loop packed packed_plen foldr]. f_equal. f_equal; cbn; lia.
  - cbn [packed packed_plen foldr] in *. fold (packed_plen initialized r) in *.
    pose proof (packed_plen_groups r Hr) as Hb.
    set (b := packed_plen initialized r) in *.
    cbn [encode_loop].
    destruct (eligible_cases c Hc) as (Hr128 & _ & Hrow).
    rewrite Z.geb_leb, (proj2 (Z.leb_gt 128 c)) by lia.
    assert (0 < 2 ^ l) as HL by (apply Z.pow_pos_nonneg; lia).
    assert (2 ^ (l + PLEN c) <= 2 ^ 35) as Hpow by (apply pow2_le_mono; lia).
    rewrite Z.pow_add_r in Hpow by lia.
    assert (jlong_shl p (PLEN c) = p * 2 ^ PLEN c) as Hshl.
    { unfold jlong_shl. destruct Hrow as [[E _]|[E _]]; rewrite E in *.
      - change (Z.land 5 63) with 5. rewrite Z.shiftl_mul_pow2 by lia.
        apply to_jLong_id. pow2. nia.
      - change (Z.land 10 63) with 10. rewrite Z.shiftl_mul_pow2 by lia.
        apply to_jLong_id. pow2. nia. }
    rewrite Hshl.
    assert (0 <= p * 2 ^ PLEN c + PENTA c < 2 ^ l * 2 ^ PLEN c) as Hacc.
    { destruct Hrow as [[E ?]|[E ?]]; rewrite E in *; pow2; nia. }
    rewrite to_jLong_id by (pow2; lia).
    rewrite to_jInt_id by (unfold is_jInt; pow2; lia).
    rewrite IH by (try rewrite Z.pow_add_r by lia; lia).
    f_equal. f_equal; [|lia].
    rewrite (Z.pow_add_r 2 (PLEN c) b) by lia. ring.
Qed.

Lemma group_value X n :
  Z.land (Z.shiftr X (5 * Z.of_nat n)) 0x1F = (X / 2 ^ (5 * Z.of_nat n)) mod 32.
Proof.
  rewrite Z.shiftr_div_pow2 by lia. change 0x1F with (Z.ones 5).
  rewrite Z.land_ones by lia. reflexivity.
Qed.

(** One step of [peel] over a 5-bit group. *)
Lemma peel_five g n X c rest :
  let h := (X / 2 ^ (5 * Z.of_nat n)) mod 32 in
  h <> 30 -> h <> 31 -> char_of g h = Some c -> peel g n X = Some rest ->
  peel g (S n) X = Some (c :: rest).
Proof.
  intros h H30 H31 Hc Hrest. cbn [peel]. rewrite group_value. fold h.
  rewrite (proj2 (Z.eqb_neq h 30) H30), (proj2 (Z.eqb_neq h 31) H31).
  cbn [orb]. rewrite Hc, Hrest. reflexivity.
Qed.

(** One step of [peel] over an escape mark and the 5 bits after it. *)
Lemma peel_ten g n X c rest :
  let h := (X / 2 ^ (5 * Z.of_nat (S n))) mod 32 in
  let low5 := (X / 2 ^ (5 * Z.of_nat n)) mod 32 in
  h = 30 \/ h = 31 -> char_of g (h * 32 + low5) = Some c ->
  peel g n X = Some rest ->
  peel g (S (S n)) X = Some (c :: rest).
Proof.
  intros h low5 Hh Hc Hrest. cbn [peel]. rewrite !group_value. fold h low5.
  assert ((h =? 30) || (h =? 31) = true) as -> by lia.
  rewrite Hc, Hrest. reflexivity.
Qed.

Lemma quotient_of X q v B : 0 < B -> 0 <= v < B -> X = q * B + v -> X / B = q.
Proof.
  intros HB Hv ->. symmetry. apply Z.div_unique with v; [left; exact Hv|ring].
Qed.

Lemma mod32_add hi x : 0 <= x < 32 -> (hi * 32 + x) mod 32 = x.
Proof. intros. divmod. Qed.

Lemma mod32_add1024 hi x : (hi * 1024 + x) mod 32 = x mod 32.
Proof. divmod. Qed.

Lemma escape_group P :
  960 <= P <= 1023 ->
  (P / 32 = 30 \/ P / 32 = 31) /\ 0 <= P mod 32 <= 31 /\
  P / 32 * 32 + P mod 32 = P.
Proof. intros. divmod. Qed.

Lemma char_of_eligible c :
  eligible c = true -> char_of initialized (PENTA c) = Some c.
Proof.
  intros Hc. destruct (eligible_cases c Hc) as (Hr & E & _).
  unfold char_of. rewrite E, (proj2 (Z.eqb_neq c 0)) by lia. reflexivity.
Qed.

(** Peeling the packed penta of a symbol gives the symbol back, whatever
    sits above its bits. *)
Lemma peel_packed s :
  all_eligible s ->
  forall hi, 0 <= hi ->
    peel initialized (groups s)
      (hi * 2 ^ packed_plen initialized s + packed s) = Some s.
Proof.
  induction 1 as [|c r Hc Hr IH]; intros hi Hhi; [reflexivity|].
  cbn [packed packed_plen groups foldr].
  fold (packed_plen initialized r). fold (groups r).
  pose proof (packed_plen_groups r Hr) as Hb.
  pose proof (packed_range r Hr) as Hv.
  set (b := packed_plen initialized r) in *.
  set (v := packed r) in *. set (n := groups r) in *.
  assert (0 < 2 ^ b) as HB by (apply Z.pow_pos_nonneg; lia).
  pose proof (char_of_eligible c Hc) as Hchar.
  destruct (eligible_cases c Hc) as (_ & _ & [[E Hp]|[E Hp]]); rewrite E.
  - change (Z.to_nat (5 / 5)) with 1%nat. cbn [Nat.add].
    rewrite Z.pow_add_r by lia. change (2 ^ 5) with 32.
    assert ((hi * (32 * 2 ^ b) + (PENTA c * 2 ^ b + v)) / 2 ^ b
            = hi * 32 + PENTA c) as Hq
      by (apply quotient_of with v; [assumption|assumption|ring]).
    assert ((hi * 32 + PENTA c) mod 32 = PENTA c) as Hm
      by (apply mod32_add; lia).
    apply peel_five; rewrite <- ?Hb, ?Hq, ?Hm; try lia; [exact Hchar|].
    specialize (IH (hi * 32 + PENTA c) ltac:(lia)).
    rewrite <- IH. f_equal. ring.
  - change (Z.to_nat (10 / 5)) with 2%nat. cbn [Nat.add].
    rewrite Z.pow_add_r by lia. change (2 ^ 10) with 1024.
    assert ((hi * (1024 * 2 ^ b) + (PENTA c * 2 ^ b + v)) / 2 ^ b
            = hi * 1024 + PENTA c) as Hq
      by (apply quotient_of with v; [assumption|assumption|ring]).
    assert (2 ^ (5 * Z.of_nat (S n)) = 32 * 2 ^ b) as Hpow.
    { replace (5 * Z.of_nat (S n)) with (5 + b) by lia.
      rewrite Z.pow_add_r by lia. reflexivity. }
    assert ((hi * (1024 * 2 ^ b) + (PENTA c * 2 ^ b + v)) / (32 * 2 ^ b)
            = hi * 32 + PENTA c / 32) as Hq'.
    { apply quotient_of with (PENTA c mod 32 * 2 ^ b + v); [lia| |].
      - pose proof (escape_group _ Hp) as (_ & ? & _). nia.
      - rewrite (Z.div_mod (PENTA c) 32) at 1 by lia. ring. }
    pose proof (escape_group _ Hp) as (Hesc & _ & Hsplit).
    assert ((hi * 32 + PENTA c / 32) mod 32 = PENTA c / 32) as Hm'
      by (apply mod32_add; lia).
    pose proof (mod32_add1024 hi (PENTA c)) as Hm.
    apply peel_ten; rewrite ?Hpow, <- ?Hb, ?Hq, ?Hq', ?Hm, ?Hm'.
    + exact Hesc.
    + rewrite Hsplit. exact Hchar.
    + specialize (IH (hi * 1024 + PENTA c) ltac:(lia)).
      rewrite <- IH. f_equal. ring.
Qed.

(** The signed value [encodePenta] returns for a penta of known width. *)
Lemma encodePenta_value P L :
  width_of P L ->
  let cipher := encodePenta initialized P L in
  (L <= 30 /\ cipher = P + 2 ^ 30) \/
  (L = 35 /\ P / 2 ^ 30 = 28 /\ cipher = P mod 2 ^ 30 - 2 ^ 31) \/
  (L = 35 /\ P / 2 ^ 30 = 29 /\ cipher = P mod 2 ^ 30 - 2 ^ 30) \/
  (L = 35 /\ P / 2 ^ 30 <> 28 /\ P / 2 ^ 30 <> 29 /\ cipher = 0).
Proof.
  intros Hw cipher. subst cipher. pose proof Hw as (HL & H5 & Hp & Htop).
  assert (P < 2 ^ 35) as H35
    by (pose proof (pow2_le_mono L 35 ltac:(lia)); lia).
  unfold encodePenta. rewrite penta_slash, penta_dollar, shiftr_30, land_low30.
  rewrite to_uLong_id by (pow2; lia).
  destruct (Z.leb_spec L 30) as [Hle|Hgt].
  - left. split; [exact Hle|].
    pose proof (pow2_le_mono L 30 ltac:(lia)). unfold to_jInt. divmod.
  - right. assert (L = 35) as -> by (Z.to_euclidean_division_equations; lia).
    assert (to_jInt (P / 2 ^ 30) = P / 2 ^ 30) as ->
      by (apply to_jInt_id; unfold is_jInt; divmod).
    destruct (Z.eqb_spec (P / 2 ^ 30) 28) as [E28|N28].
    { left. repeat split; [exact E28|]. unfold to_jInt. divmod. }
    destruct (Z.eqb_spec (P / 2 ^ 30) 29) as [E29|N29].
    { right; left. repeat split; [exact E29|]. unfold to_jInt. divmod. }
    right; right. repeat split; assumption.
Qed.

(** A non-zero result of [encodePenta] decodes to the penta it came from,
    with the same width. *)
Lemma decodeCipher_encodePenta P L :
  width_of P L -> encodePenta initialized P L <> 0 ->
  decodeCipher initialized (encodePenta initialized P L) = inr P /\
  decode_plen (encodePenta initialized P L) P = Some L.
Proof.
  intros Hw Hnz. pose proof Hw as (HL & H5 & Hp & Htop).
  assert (P < 2 ^ 35) as H35
    by (pose proof (pow2_le_mono L 35 ltac:(lia)); lia).
  destruct (encodePenta_value P L Hw) as [(Hle & E)|[(-> & Hq & E)|[(-> & Hq & E)|(_ & _ & _ & E)]]];
    [| | |contradiction]; rewrite E; clear E Hnz.
  - pose proof (pow2_le_mono L 30 ltac:(lia)).
    assert (is_jInt (P + 2 ^ 30)) as Hc by (unfold is_jInt; pow2; lia).
    assert (tag (P + 2 ^ 30) = 1) as Ht
      by (destruct (tag_cases _ Hc) as [[? ?]|[[? ?]|[[? ?]|[? ?]]]]; pow2; lia).
    destruct (decodeCipher_tagged _ Hc ltac:(lia)) as (penta & -> & _ & H1 & _).
    rewrite (H1 Ht). split; [f_equal; lia|].
    unfold decode_plen. fold (tag (P + 2 ^ 30)). rewrite Ht.
    change (1 =? 1) with true. cbv iota. now apply infer_plen_width.
  - assert (is_jInt (P mod 2 ^ 30 - 2 ^ 31)) as Hc by (unfold is_jInt; divmod).
    assert (tag (P mod 2 ^ 30 - 2 ^ 31) = 2) as Ht.
    { destruct (tag_cases _ Hc) as [[? ?]|[[? ?]|[[? ?]|[? ?]]]];
        try assumption; exfalso; divmod. }
    destruct (decodeCipher_tagged _ Hc ltac:(lia)) as (penta & -> & _ & _ & H2 & _).
    rewrite (H2 Ht). split; [f_equal; divmod|].
    unfold decode_plen. fold (tag (P mod 2 ^ 30 - 2 ^ 31)). rewrite Ht.
    reflexivity.
  - assert (is_jInt (P mod 2 ^ 30 - 2 ^ 30)) as Hc by (unfold is_jInt; divmod).
    assert (tag (P mod 2 ^ 30 - 2 ^ 30) = 3) as Ht.
    { destruct (tag_cases _ Hc) as [[? ?]|[[? ?]|[[? ?]|[? ?]]]];
        try assumption; exfalso; divmod. }
    destruct (decodeCipher_tagged _ Hc ltac:(lia)) as (penta & -> & _ & _ & _ & H3).
    rewrite (H3 Ht). split; [f_equal; divmod|].
    unfold decode_plen. fold (tag (P mod 2 ^ 30 - 2 ^ 30)). rewrite Ht.
    reflexivity.
Qed.

(** What [encode] computes for a symbol of eligible characters that packs
    into 35 bits. *)
Lemma encode_packed s :
  all_eligible s -> packed_plen initialized s <= 35 ->
  encode initialized (Some s) =
    encodePenta initialized (packed s) (packed_plen initialized s).
Proof.
  intros Hs Hle. unfold encode.
  rewrite (packed_length s Hs Hle).
  pose proof (packed_plen_groups s Hs) as Hb.
  rewrite (encode_loop_packed s Hs 0 0) by (cbn; lia).
  rewrite Z.mul_0_l, !Z.add_0_l.
  assert ((packed_plen initialized s >? 35) = false) as -> by lia.
  reflexivity.
Qed.

(** C1. For every string of eligible ASCII characters whose packed width is
    at most 35 bits, if [encode] returns a non-zero cipher then
    [decodeCipher] succeeds on it and rendering the decoded penta with
    [penta_to_string], at the width [decode_cipher] reports, gives the
    string back. *)
Theorem decodeCipher_encode_round_trip (s : jstring) :
  Forall (fun c => eligible c = true) s ->
  packed_plen initialized s <= 35 ->
  encode initialized (Some s) <> 0 ->
  exists penta plen,
    decodeCipher initialized (encode initialized (Some s)) = inr penta /\
    decode_plen (encode initialized (Some s)) penta = Some plen /\
    penta_to_string initialized penta plen = Some s.
Proof.
  intros Hs Hle. rewrite (encode_packed s Hs Hle). intros Hnz.
  pose proof (packed_width s Hs Hle) as Hw.
  destruct (decodeCipher_encodePenta _ _ Hw Hnz) as [Hd Hp].
  exists (packed s), (packed_plen initialized s).
  split; [exact Hd|]. split; [exact Hp|].
  unfold penta_to_string. pose proof (packed_plen_groups s Hs) as Hb.
  replace (Z.to_nat (packed_plen initialized s / 5)) with (groups s)
    by (rewrite Hb; Z.to_euclidean_division_equations; lia).
  pose proof (peel_packed s Hs 0 ltac:(lia)) as Hpeel.
  rewrite Z.mul_0_l, Z.add_0_l in Hpeel. exact Hpeel.
Qed.

Lemma decodeCipher_encode_round_trip_witness :
  Forall (fun c => eligible c = true) (jstr "/ES*") /\
  packed_plen initialized (jstr "/ES*") <= 35 /\
  encode initialized (Some (jstr "/ES*")) <> 0 /\
  exists penta plen,
    decodeCipher initialized (encode initialized (Some (jstr "/ES*")))
      = inr penta /\
    decode_plen (encode initialized (Some (jstr "/ES*"))) penta = Some plen /\
    penta_to_string initialized penta plen = Some (jstr "/ES*").
Proof.
  assert (Forall (fun c => eligible c = true) (jstr "/ES*")) as Hs
    by (repeat constructor).
  assert (packed_plen initialized (jstr "/ES*") <= 35) as Hle
    by (vm_compute; congruence).
  assert (encode initialized (Some (jstr "/ES*")) <> 0) as Hnz
    by (vm_compute; congruence).
  split; [exact Hs|]. split; [exact Hle|]. split; [exact Hnz|].
  exact (decodeCipher_encode_round_trip (jstr "/ES*") Hs Hle Hnz).
Defined.

(** ** Symbols that [encode] refuses *)

Lemma plen_values c : c < 128 -> PLEN c = 5 \/ PLEN c = 10 \/ PLEN c = 64.
Proof.
  intros Hc. destruct (Z.lt_ge_cases c 0) as [Hneg|Hpos].
  - destruct c as [|q|q]; try lia. right; right. vm_compute. reflexivity.
  - pose proof (char_rows c ltac:(lia)) as Hrow. unfold char_row_ok in Hrow.
    destruct (five_bit c); [lia|]. destruct (ten_bit c); lia.
Qed.

Lemma ineligible_plen c : ineligible c -> 128 <= c \/ PLEN c = 64.
Proof.
  intros [H|[->|[->|H]]]; auto; right; vm_compute; reflexivity.
Qed.

Lemma eligible_not_ineligible c : eligible c = true -> ~ ineligible c.
Proof.
  intros Hc Hi. destruct (eligible_cases c Hc) as (Hr & _ & Hrow).
  apply ineligible_plen in Hi. lia.
Qed.

(** [ineligible] is the complement of [eligible]. *)
Lemma ineligible_iff c : ineligible c <-> eligible c = false.
Proof.
  split.
  - intros Hi. destruct (eligible c) eqn:Hc; [|reflexivity].
    exfalso. exact (eligible_not_ineligible c Hc Hi).
  - intros Hc. destruct (Z.le_gt_cases 128 c) as [Hge|Hlt]; [left; exact Hge|].
    right; right; right. destruct (Z.lt_ge_cases c 0) as [Hneg|Hpos].
    + destruct c as [|q|q]; try lia. vm_compute. reflexivity.
    + exact (proj1 (ineligible_row c ltac:(lia) Hc)).
Qed.

(** The width accumulated by the loop of [encode] never decreases, and
    grows by at least 64 over a character that is not eligible. *)
Lemma encode_loop_plen s :
  forall p l,
    0 <= l -> l + 64 * Z.of_nat (length s) < 2 ^ 31 ->
    match encode_loop initialized s p l with
    | None => True
    | Some (_, plen) =>
        l <= plen /\ ((exists c, In c s /\ ineligible c) -> l + 64 <= plen)
    end.
Proof.
  induction s as [|c r IH]; intros p l Hl Hb.
  - cbn [encode_loop]. split; [lia|]. intros (c & [] & _).
  - cbn [encode_loop]. rewrite Z.geb_leb.
    destruct (Z.leb_spec 128 c) as [Hge|Hlt]; [exact I|].
    cbn [length] in Hb. pose proof (plen_values c Hlt) as Hv.
    rewrite to_jInt_id by (unfold is_jInt; pow2; lia).
    specialize (IH (to_jLong (jlong_shl p (PLEN c) + PENTA c)) (l + PLEN c)
                  ltac:(lia) ltac:(lia)).
    destruct (encode_loop initialized r _ _) as [[penta plen]|]; [|exact I].
    destruct IH as [Hmono Hbad]. split; [lia|].
    intros (c' & [<-|Hin] & Hc').
    + apply ineligible_plen in Hc'. lia.
    + assert (l + PLEN c + 64 <= plen) by (apply Hbad; eauto). lia.
Qed.

(** C5. [encode] returns 0 for the null input, for every input longer than
    7 characters, and for every input containing a character that is not
    eligible. *)
Theorem encode_refuses (symbol : option jstring) :
  symbol = None \/
  (exists s, symbol = Some s /\
     ((7 < length s)%nat \/ exists c, In c s /\ ineligible c)) ->
  encode initialized symbol = 0.
Proof.
  intros [->|(s & -> & Hs)]; [reflexivity|]. unfold encode.
  destruct (Z.gtb_spec (Z.of_nat (length s)) 7) as [|Hlen]; [reflexivity|].
  destruct Hs as [Hlong|Hbad]; [lia|].
  pose proof (encode_loop_plen s 0 0 ltac:(lia) ltac:(pow2; lia)) as Hloop.
  destruct (encode_loop initialized s 0 0) as [[penta plen]|]; [|reflexivity].
  destruct Hloop as [_ Hplen]. specialize (Hplen Hbad).
  assert ((plen >? 35) = true) as -> by lia. reflexivity.
Qed.

Lemma encode_refuses_witness :
  (exists c, In c (jstr "A'B") /\ ineligible c) /\
  encode initialized (Some (jstr "A'B")) = 0.
Proof.
  assert (exists c, In c (jstr "A'B") /\ ineligible c) as Hbad.
  { exists (chr "'"). split; [right; left; reflexivity|].
    right; left; reflexivity. }
  split; [exact Hbad|].
  apply (encode_refuses (Some (jstr "A'B"))). right.
  exists (jstr "A'B"). split; [reflexivity|]. right. exact Hbad.
Defined.

(** ** The wire reader *)

Section ReadSymbolFacts.

Context {I : Type} `{BufferedInput I}.
Variable g : globals.
Variable VALID_CIPHER : Z.
Variable toString : Z -> outcome jstring.

Lemma keeps_ret {A} (a : A) : keeps_result (@ret I A a).
Proof. intros st r st' E. inversion E. reflexivity. Qed.

Lemma keeps_throw {A} e : keeps_result (@throw I A e).
Proof. intros st r st' E. inversion E. reflexivity. Qed.

Lemma keeps_diverge {A} : keeps_result (@diverge I A).
Proof. intros st r st' E. inversion E. reflexivity. Qed.

Lemma keeps_on_in {A} (op : I -> outcome A * I) : keeps_result (on_in op).
Proof.
  intros st r st' E. unfold on_in in E.
  destruct (op (rd_in st)) as [r0 i']. inversion E. reflexivity.
Qed.

Lemma keeps_get_buffer : keeps_result (@get_buffer I).
Proof. intros st r st' E. inversion E. reflexivity. Qed.

Lemma keeps_set_buffer b : keeps_result (@set_buffer I b).
Proof. intros st r st' E. inversion E. reflexivity. Qed.

Lemma keeps_bind {A B} (m : M I A) (k : A -> M I B) :
  keeps_result m -> (forall a, keeps_result (k a)) -> keeps_result (bind m k).
Proof.
  intros Hm Hk st r st' E. unfold bind in E.
  destruct (m st) as [[a|e|] st1] eqn:Em.
  - rewrite (Hk a _ _ _ E). exact (Hm _ _ _ Em).
  - inversion E; subst. exact (Hm _ _ _ Em).
  - inversion E; subst. exact (Hm _ _ _ Em).
Qed.

Lemma keeps_if {A} (b : bool) (m1 m2 : M I A) :
  keeps_result m1 -> keeps_result m2 -> keeps_result (if b then m1 else m2).
Proof. destruct b; auto. Qed.

Lemma zero_of_keeps (m : M I Z) : keeps_result m -> writes_only_with_zero m.
Proof. intros Hm st v st' E _. exact (Hm _ _ _ E). Qed.

Lemma zero_bind {A} (m : M I A) (k : A -> M I Z) :
  keeps_result m -> (forall a, writes_only_with_zero (k a)) ->
  writes_only_with_zero (bind m k).
Proof.
  intros Hm Hk st v st' E Hv. unfold bind in E.
  destruct (m st) as [[a|e|] st1] eqn:Em; try discriminate E.
  rewrite (Hk a _ _ _ E Hv). exact (Hm _ _ _ Em).
Qed.

Lemma zero_if (b : bool) (m1 m2 : M I Z) :
  writes_only_with_zero m1 -> writes_only_with_zero m2 ->
  writes_only_with_zero (if b then m1 else m2).
Proof. destruct b; auto. Qed.

(** [result[0] = s; return 0;] *)
Lemma zero_set_result (s : option jstring) :
  writes_only_with_zero (bind (set_result s) (fun _ => @ret I Z 0)).
Proof.
  intros st v st' E Hv. unfold bind, set_result, ret in E.
  inversion E; subst. contradiction.
Qed.

Lemma keeps_read_chars shared n :
  forall k chars, keeps_result (read_chars shared n k chars).
Proof.
  induction n as [|n IH]; intros k chars; cbn [read_chars].
  - apply keeps_ret.
  - apply keeps_bind; [apply keeps_on_in|]. intros codePoint.
    apply keeps_if; [apply keeps_throw|].
    apply keeps_bind; [|intros _; apply IH].
    apply keeps_if; [apply keeps_set_buffer|apply keeps_ret].
Qed.

Lemma zero_read_cesu8 : writes_only_with_zero (read_cesu8 VALID_CIPHER).
Proof.
  unfold read_cesu8. apply zero_bind; [apply keeps_on_in|]. intros len.
  apply zero_if; [apply zero_of_keeps, keeps_throw|].
  apply zero_if; [apply zero_set_result|].
  apply zero_if; [apply zero_set_result|].
  apply zero_bind; [apply keeps_get_buffer|]. intros buffer.
  apply zero_bind; [apply keeps_read_chars|]. intros chars.
  apply zero_if; [apply zero_of_keeps, keeps_ret|apply zero_set_result].
Qed.

(** The dispatch writes slot 0 only on the paths that return 0 at once. *)
Lemma read_penta_result st r st' :
  read_penta VALID_CIPHER st = (Returned r, st') ->
  r = inl 0 \/ rd_result st' = rd_result st.
Proof.
  unfold read_penta. intros E. unfold bind at 1 in E.
  destruct (on_in readUnsignedByte st) as [[i|e|] st1] eqn:E1;
    try discriminate E.
  pose proof (keeps_on_in _ _ _ _ E1) as K1. rewrite <- K1. clear E1 K1.
  repeat match type of E with
  | (if ?b then _ else _) _ = _ => destruct b
  end.
  - right.
    refine (keeps_bind _ _ _ _ st1 (Returned r) st' E);
      [apply keeps_on_in|intros; apply keeps_ret].
  - right.
    refine (keeps_bind _ _ _ _ st1 (Returned r) st' E); [apply keeps_on_in|].
    intros b. apply keeps_bind; [apply keeps_on_in|intros; apply keeps_ret].
  - discriminate E.
  - right.
    refine (keeps_bind _ _ _ _ st1 (Returned r) st' E);
      [apply keeps_on_in|intros; apply keeps_ret].
  - right.
    refine (keeps_bind _ _ _ _ st1 (Returned r) st' E);
      [apply keeps_on_in|intros; apply keeps_ret].
  - discriminate E.
  - left. unfold bind, set_result, ret in E.
    destruct (on_in readUTFString st1) as [[s|e|] st2]; inversion E.
    reflexivity.
  - unfold bind at 1 in E.
    destruct (read_cesu8 VALID_CIPHER st1) as [[v|e|] st2] eqn:E2;
      try discriminate E.
    inversion E; subst. destruct (Z.eq_dec v 0) as [->|Hv]; [left; reflexivity|].
    right. exact (zero_read_cesu8 _ _ _ E2 Hv).
  - right. inversion E. reflexivity.
  - left. inversion E. reflexivity.
Qed.

Lemma zero_cipher_of_penta penta :
  writes_only_with_zero (cipher_of_penta (I:=I) g toString penta).
Proof.
  unfold cipher_of_penta. destruct (infer_plen penta) as [plen|].
  - intros st v st' E Hv. unfold bind at 1 in E.
    destruct (encodePenta g penta plen =? 0) eqn:Ez.
    + destruct (bind _ _ st) as [[[]|e|] st1]; try discriminate E.
      inversion E; subst. lia.
    + inversion E. reflexivity.
  - apply zero_of_keeps, keeps_diverge.
Qed.

End ReadSymbolFacts.

Section ReadSymbolClaims.

Context {I : Type} `{BufferedInput I}.
Variable g : globals.
Variable VALID_CIPHER : Z.
Variable toString : Z -> outcome jstring.

(** C8, as the code has it.  Whenever [readSymbol] returns a non-zero value
    (a cipher from a penta tier, or the character count of the CESU-8
    branch), slot 0 of [result] holds what it held on entry, hence [None]
    if the caller passed [None]: [readSymbol] stores into [result[0]] only
    on paths that return 0. *)
Theorem readSymbol_result_frame (st st' : reader I) (v : Z) :
  readSymbol g VALID_CIPHER toString st = (Returned v, st') ->
  v <> 0 ->
  rd_result st' = rd_result st /\
  (rd_result st = None -> rd_result st' = None).
Proof.
  intros E Hv. assert (rd_result st' = rd_result st) as K.
  { unfold readSymbol in E. unfold bind at 1 in E.
    destruct (read_penta VALID_CIPHER st) as [[r|e|] st1] eqn:E1;
      try discriminate E.
    destruct (read_penta_result _ _ _ _ E1) as [->|K1].
    - inversion E; subst. contradiction.
    - rewrite <- K1. destruct r as [v0|penta].
      + inversion E. reflexivity.
      + exact (zero_cipher_of_penta g toString penta _ _ _ E Hv). }
  split; [exact K|]. intros Hn. now rewrite K.
Qed.

(** C7. In the CESU-8 branch (first byte [0xFD]), once [readCompactLong]
    has returned [len]: a [len] below -1 or above [Integer.MAX_VALUE] throws
    the illegal-length error; [len = -1] stores [null] and returns 0;
    [len = 0] stores the empty string and returns 0.  In all three cases the
    source is left in the state that [readCompactLong] left it in: no
    character is read. *)
Theorem readSymbol_cesu8_sentinels (st : reader I) (i1 i2 : I) (len : Z) :
  readUnsignedByte (rd_in st) = (Returned 0xFD, i1) ->
  readCompactLong i1 = (Returned len, i2) ->
  (len < -1 \/ len > Integer_MAX_VALUE ->
     readSymbol g VALID_CIPHER toString st =
       (Thrown (IOException "Illegal length."),
        Reader i2 (rd_buffer st) (rd_result st))) /\
  (len = -1 ->
     readSymbol g VALID_CIPHER toString st =
       (Returned 0, Reader i2 (rd_buffer st) None)) /\
  (len = 0 ->
     readSymbol g VALID_CIPHER toString st =
       (Returned 0, Reader i2 (rd_buffer st) (Some []))).
Proof.
  intros E1 E2.
  assert (read_penta VALID_CIPHER st =
          bind (read_cesu8 VALID_CIPHER) (fun r => ret (inl r))
            (Reader i1 (rd_buffer st) (rd_result st))) as Hd.
  { unfold read_penta. unfold bind at 1. unfold on_in at 1. rewrite E1.
    reflexivity. }
  assert (forall b, readCompactLong (rd_in (Reader i1 b (rd_result st)))
                      = (Returned len, i2)) as E2' by (intros; exact E2).
  split; [|split]; intros Hl; unfold readSymbol; unfold bind at 1;
    rewrite Hd; unfold read_cesu8; unfold bind at 1 2; unfold on_in at 1;
    rewrite E2'; cbn [rd_in rd_buffer rd_result];
    unfold Integer_MAX_VALUE in *.
  - assert ((len <? -1) || (len >? 2 ^ 31 - 1) = true) as -> by lia.
    reflexivity.
  - subst len. reflexivity.
  - subst len. reflexivity.
Qed.

(** C10. The empty symbol has two wire forms that [readSymbol] maps to the
    same value: on the bytes [0x00 0x00] (15-bit tier, payload zero) the
    penta is 0, the width is 0 and the result is the cipher [0x40000000],
    which is also the result on the single byte [0xFE]; neither touches
    the buffer or the result slot. *)
Theorem readSymbol_empty_forms (st : reader I) (i1 i2 : I) :
  infer_plen 0 = Some 0 /\ encodePenta g 0 0 = 0x40000000 /\
  (readUnsignedByte (rd_in st) = (Returned 0x00, i1) ->
   readUnsignedByte i1 = (Returned 0x00, i2) ->
   read_penta VALID_CIPHER st =
     (Returned (inr 0), Reader i2 (rd_buffer st) (rd_result st)) /\
   readSymbol g VALID_CIPHER toString st =
     (Returned 0x40000000, Reader i2 (rd_buffer st) (rd_result st))) /\
  (readUnsignedByte (rd_in st) = (Returned 0xFE, i1) ->
   read_penta VALID_CIPHER st =
     (Returned (inr 0), Reader i1 (rd_buffer st) (rd_result st)) /\
   readSymbol g VALID_CIPHER toString st =
     (Returned 0x40000000, Reader i1 (rd_buffer st) (rd_result st))).
Proof.
  split; [reflexivity|]. split; [reflexivity|]. split.
  - intros E1 E2.
    assert (read_penta VALID_CIPHER st =
            (Returned (inr 0), Reader i2 (rd_buffer st) (rd_result st))) as Hd.
    { unfold read_penta. unfold bind at 1. unfold on_in at 1. rewrite E1.
      change (0 <? 128) with true. cbv iota.
      unfold bind, on_in. cbn [rd_in rd_buffer rd_result]. rewrite E2.
      reflexivity. }
    split; [exact Hd|]. unfold readSymbol, bind. rewrite Hd. reflexivity.
  - intros E1.
    assert (read_penta VALID_CIPHER st =
            (Returned (inr 0), Reader i1 (rd_buffer st) (rd_result st))) as Hd.
    { unfold read_penta. unfold bind at 1. unfold on_in at 1. rewrite E1.
      reflexivity. }
    split; [exact Hd|]. unfold readSymbol, bind. rewrite Hd. reflexivity.
Qed.

End ReadSymbolClaims.

(** ** The penta tiers of the wire format *)

Lemma tier15 i b :
  0 <= i < 0x80 -> 0 <= b < 2 ^ 8 ->
  0 <= to_jInt (jint_shl i 8 + b) < 2 ^ 30.
Proof.
  intros Hi Hb. unfold jint_shl. change (Z.land 8 31) with 8.
  rewrite Z.shiftl_mul_pow2 by lia. unfold to_jInt. divmod.
Qed.

Lemma tier30 i b s :
  0 <= i < 2 ^ 8 -> 0 <= b < 2 ^ 8 -> 0 <= s < 2 ^ 16 ->
  0 <= to_jInt (to_jInt (jint_shl (Z.land i 0x3F) 24 + jint_shl b 16) + s)
    < 2 ^ 30.
Proof.
  intros Hi Hb Hs. unfold jint_shl.
  change (Z.land 24 31) with 24. change (Z.land 16 31) with 16.
  change 0x3F with (Z.ones 6). rewrite Z.land_ones by lia.
  rewrite !Z.shiftl_mul_pow2 by lia. unfold to_jInt. divmod.
Qed.

Lemma tier20 i s :
  0 <= i < 2 ^ 8 -> 0 <= s < 2 ^ 16 ->
  0 <= to_jInt (jint_shl (Z.land i 0x0F) 16 + s) < 2 ^ 30.
Proof.
  intros Hi Hs. unfold jint_shl. change (Z.land 16 31) with 16.
  change 0x0F with (Z.ones 4). rewrite Z.land_ones by lia.
  rewrite Z.shiftl_mul_pow2 by lia. unfold to_jInt. divmod.
Qed.

Lemma tier35 i x :
  0 <= i < 2 ^ 8 ->
  0 <= to_jLong (jlong_shl (Z.land i 0x07) 32 + Z.land x 0xFFFFFFFF) < 2 ^ 35.
Proof.
  intros Hi. unfold jlong_shl. change (Z.land 32 63) with 32.
  change 0x07 with (Z.ones 3). change 0xFFFFFFFF with (Z.ones 32).
  rewrite !Z.land_ones by lia.
  rewrite Z.shiftl_mul_pow2 by lia. unfold to_jLong. divmod.
Qed.

(** A penta of at most 30 bits always has a cipher. *)
Lemma narrow_penta_cipher penta :
  0 <= penta < 2 ^ 30 ->
  exists plen, infer_plen penta = Some plen /\
    encodePenta initialized penta plen <> 0.
Proof.
  intros Hp. destruct (infer_plen_total penta ltac:(pow2; lia)) as (L & HL & Hw).
  exists L. split; [exact HL|].
  pose proof (width_le30 penta L Hw ltac:(lia)) as Hle.
  destruct (encodePenta_value penta L Hw)
    as [(_ & E)|[(? & _)|[(? & _)|(? & _)]]]; pow2; lia.
Qed.

(** A penta of at most 35 bits has no cipher exactly when it needs more
    than 30 bits and its top group is neither 28 nor 29. *)
Lemma wide_penta_cipher penta :
  0 <= penta < 2 ^ 35 ->
  exists plen, infer_plen penta = Some plen /\
    (encodePenta initialized penta plen = 0 <->
     2 ^ 30 <= penta /\ Z.shiftr penta 30 <> 28 /\ Z.shiftr penta 30 <> 29).
Proof.
  intros Hp. destruct (infer_plen_total penta Hp) as (L & HL & Hw).
  exists L. split; [exact HL|]. rewrite shiftr_30.
  pose proof Hw as (HL35 & H5 & Hr & Htop).
  destruct (encodePenta_value penta L Hw)
    as [(Hle & E)|[(-> & Hq & E)|[(-> & Hq & E)|(-> & H28 & H29 & E)]]];
    rewrite E.
  - pose proof (pow2_le_mono L 30 ltac:(lia)). split; intros; lia.
  - split; [intros Hz; exfalso; divmod|intros (_ & ? & _); contradiction].
  - split; [intros Hz; exfalso; divmod|intros (_ & _ & ?); contradiction].
  - split; [intros _|reflexivity]. destruct Htop as [?|Htop]; [lia|].
    change (35 - 5) with 30 in Htop. auto.
Qed.

Section PentaTiers.

Context {I : Type} `{BufferedInput I}.
Variable VALID_CIPHER : Z.
Variable toString : Z -> outcome jstring.

Lemma returned_penta (x y : Z) (s s' : reader I) :
  (Returned (inr x : Z + Z), s) = (Returned (inr y), s') -> x = y /\ s = s'.
Proof. intros E. inversion E. auto. Qed.

(** The first bytes that select a penta tier, and the size of the penta
    each tier delivers. *)
Lemma read_penta_tier (st st' : reader I) (i : Z) (i1 : I) (penta : Z) :
  readUnsignedByte (rd_in st) = (Returned i, i1) ->
  read_penta VALID_CIPHER st = (Returned (inr penta), st') ->
  ((i < 0xC0 \/ 0xE0 <= i < 0xF0 \/ i = 0xFE) /\ 0 <= penta < 2 ^ 30) \/
  (0xF0 <= i < 0xF8 /\ 0 <= penta < 2 ^ 35).
Proof.
  intros E1 E. pose proof (readUnsignedByte_range _ _ _ E1) as Hi.
  unfold read_penta in E. unfold bind at 1 in E. unfold on_in at 1 in E.
  rewrite E1 in E.
  destruct (Z.ltb_spec i 0x80) as [H80|H80].
  { unfold bind, on_in in E. cbn [rd_in] in E.
    destruct (readUnsignedByte i1) as [[b|e|] i2] eqn:Eb; try discriminate E.
    apply returned_penta in E as [<- <-].
    pose proof (readUnsignedByte_range _ _ _ Eb) as Hb.
    left. split; [lia|]. apply tier15; lia. }
  destruct (Z.ltb_spec i 0xC0) as [HC0|HC0].
  { unfold bind, on_in in E. cbn [rd_in] in E.
    destruct (readUnsignedByte i1) as [[b|e|] i2] eqn:Eb;
      try discriminate E.
    cbn [rd_in] in E.
    destruct (readUnsignedShort i2) as [[s|e|] i3] eqn:Es; try discriminate E.
    apply returned_penta in E as [<- <-].
    pose proof (readUnsignedByte_range _ _ _ Eb) as Hb.
    pose proof (readUnsignedShort_range _ _ _ Es) as Hs.
    left. split; [lia|]. apply tier30; lia. }
  destruct (Z.ltb_spec i 0xE0) as [HE0|HE0]; [discriminate E|].
  destruct (Z.ltb_spec i 0xF0) as [HF0|HF0].
  { unfold bind, on_in in E. cbn [rd_in] in E.
    destruct (readUnsignedShort i1) as [[s|e|] i2] eqn:Es; try discriminate E.
    apply returned_penta in E as [<- <-].
    pose proof (readUnsignedShort_range _ _ _ Es) as Hs.
    left. split; [lia|]. apply tier20; lia. }
  destruct (Z.ltb_spec i 0xF8) as [HF8|HF8].
  { unfold bind, on_in in E. cbn [rd_in] in E.
    destruct (readInt i1) as [[x|e|] i2] eqn:Ex; try discriminate E.
    apply returned_penta in E as [<- <-].
    right. split; [lia|]. apply tier35; lia. }
  destruct (Z.ltb_spec i 0xFC) as [HFC|HFC]; [discriminate E|].
  destruct (Z.eqb_spec i 0xFC) as [EFC|NFC].
  { unfold bind, on_in, set_result, ret in E. cbn [rd_in] in E.
    destruct (readUTFString i1) as [[s|e|] i2]; discriminate E. }
  destruct (Z.eqb_spec i 0xFD) as [EFD|NFD].
  { unfold bind at 1 in E.
    destruct (read_cesu8 VALID_CIPHER _) as [[v|e|] st2]; discriminate E. }
  destruct (Z.eqb_spec i 0xFE) as [EFE|NFE].
  { apply returned_penta in E as [<- <-]. left. split; [lia|]. pow2. lia. }
  discriminate E.
Qed.

(** C6, as the code has it.  When the first byte selects the 15-, 30- or
    20-bit tier ([0x00-0xBF], [0xE0-0xEF]) or is [0xFE], every payload
    yields a penta and inferred width with a non-zero cipher, and the
    fallback is not reached.  In the 35-bit tier ([0xF0-0xF7]) the cipher
    is zero, and the fallback [result[0] = toString(penta)] is executed,
    exactly when the penta needs more than 30 bits and its top group is
    neither 28 nor 29. *)
Theorem readSymbol_penta_tiers (st st' : reader I) (i : Z) (i1 : I)
    (penta : Z) :
  readUnsignedByte (rd_in st) = (Returned i, i1) ->
  read_penta VALID_CIPHER st = (Returned (inr penta), st') ->
  (i < 0xC0 \/ 0xE0 <= i < 0xF8 \/ i = 0xFE) /\
  exists plen,
    infer_plen penta = Some plen /\
    let cipher := encodePenta initialized penta plen in
    (i < 0xC0 \/ 0xE0 <= i < 0xF0 \/ i = 0xFE -> cipher <> 0) /\
    (0xF0 <= i < 0xF8 ->
       (cipher = 0 <->
        2 ^ 30 <= penta /\
        Z.shiftr penta 30 <> 28 /\ Z.shiftr penta 30 <> 29)) /\
    (cipher <> 0 ->
       readSymbol initialized VALID_CIPHER toString st = (Returned cipher, st')) /\
    (cipher = 0 ->
       readSymbol initialized VALID_CIPHER toString st =
         match toString penta with
         | Returned s =>
             (Returned 0, Reader (rd_in st') (rd_buffer st') (Some s))
         | Thrown e => (Thrown e, st')
         | Diverged => (Diverged, st')
         end).
Proof.
  intros E1 E.
  assert (forall plen, infer_plen penta = Some plen ->
    let cipher := encodePenta initialized penta plen in
    (cipher <> 0 ->
       readSymbol initialized VALID_CIPHER toString st = (Returned cipher, st')) /\
    (cipher = 0 ->
       readSymbol initialized VALID_CIPHER toString st =
         match toString penta with
         | Returned s =>
             (Returned 0, Reader (rd_in st') (rd_buffer st') (Some s))
         | Thrown e => (Thrown e, st')
         | Diverged => (Diverged, st')
         end)) as Hrun.
  { intros plen HL cipher. subst cipher.
    assert (readSymbol initialized VALID_CIPHER toString st =
            cipher_of_penta initialized toString penta st') as ->
      by (unfold readSymbol; unfold bind at 1; rewrite E; reflexivity).
    unfold cipher_of_penta. rewrite HL. cbv zeta.
    remember (encodePenta initialized penta plen) as cipher eqn:Ec.
    clear Ec. split; intros Hc.
    - unfold bind. rewrite (proj2 (Z.eqb_neq cipher 0) Hc). reflexivity.
    - subst cipher. unfold bind. change (0 =? 0) with true. cbv iota.
      destruct (toString penta); reflexivity. }
  destruct (read_penta_tier st st' i i1 penta E1 E) as [[Hi Hp]|[Hi Hp]].
  - split; [lia|].
    destruct (narrow_penta_cipher penta Hp) as (plen & HL & Hnz).
    exists plen. split; [exact HL|]. cbv zeta.
    split; [intros _; exact Hnz|]. split; [intros ?; lia|].
    exact (Hrun plen HL).
  - split; [lia|].
    destruct (wide_penta_cipher penta Hp) as (plen & HL & Hz).
    exists plen. split; [exact HL|]. cbv zeta.
    split; [intros ?; lia|]. split; [intros _; exact Hz|].
    exact (Hrun plen HL).
Qed.

End PentaTiers.

(** ** The reader on concrete bytes *)

Lemma readSymbol_result_frame_witness :
  run [x00; x01] [] None = (Returned 0x40000001, Reader [] [] None) /\
  0x40000001 <> 0 /\
  rd_result (Reader ([] : list byte) [] None) = None.
Proof.
  assert (run [x00; x01] [] None = (Returned 0x40000001, Reader [] [] None))
    as E by (vm_compute; reflexivity).
  assert (0x40000001 <> 0) as Hv by lia.
  split; [exact E|]. split; [exact Hv|].
  exact (proj2 (readSymbol_result_frame initialized VALID_CIPHER_java
                  (toString initialized) _ _ _ E Hv) eq_refl).
Defined.

(** The claim C8 as stated fails when the caller's slot is not empty on
    entry: the bytes [0x00 0x01] return the cipher of ["A"] and the slot
    still holds the caller's string. *)
Lemma readSymbol_keeps_stale_result :
  run [x00; x01] [] (Some (jstr "X")) =
    (Returned 0x40000001, Reader [] [] (Some (jstr "X"))) /\
  0x40000001 <> 0 /\
  rd_result (snd (run [x00; x01] [] (Some (jstr "X")))) <> None.
Proof.
  split; [vm_compute; reflexivity|]. split; [lia|].
  vm_compute. discriminate.
Qed.

Lemma readSymbol_cesu8_sentinels_witness :
  readUnsignedByte (rd_in (Reader [xfd; x7f; x41] [] (Some (jstr "X"))))
    = (Returned 0xFD, [x7f; x41]) /\
  readCompactLong [x7f; x41] = (Returned (-1), [x41]) /\
  run [xfd; x7f; x41] [] (Some (jstr "X")) =
    (Returned 0, Reader [x41] [] None).
Proof.
  assert (readUnsignedByte (rd_in (Reader [xfd; x7f; x41] [] (Some (jstr "X"))))
          = (Returned 0xFD, [x7f; x41])) as E1 by reflexivity.
  assert (readCompactLong [x7f; x41] = (Returned (-1), [x41])) as E2
    by reflexivity.
  split; [exact E1|]. split; [exact E2|].
  exact (proj1 (proj2 (readSymbol_cesu8_sentinels initialized
    VALID_CIPHER_java (toString initialized) _ _ _ _ E1 E2)) eq_refl).
Defined.

Lemma readSymbol_empty_forms_witness :
  readUnsignedByte (rd_in (Reader [x00; x00] [] None)) = (Returned 0x00, [x00]) /\
  readUnsignedByte [x00] = (Returned 0x00, []) /\
  run [x00; x00] [] None = (Returned 0x40000000, Reader [] [] None).
Proof.
  assert (readUnsignedByte (rd_in (Reader [x00; x00] [] None))
          = (Returned 0x00, [x00])) as E1 by reflexivity.
  assert (readUnsignedByte [x00] = (Returned 0x00, [])) as E2 by reflexivity.
  split; [exact E1|]. split; [exact E2|].
  exact (proj2 (proj1 (proj2 (proj2 (readSymbol_empty_forms initialized
    VALID_CIPHER_java (toString initialized) _ _ _)) ) E1 E2)).
Defined.

Lemma readSymbol_penta_tiers_witness :
  readUnsignedByte (rd_in (Reader [x24; x8d] [] None)) = (Returned 0x24, [x8d]) /\
  read_penta VALID_CIPHER_java (Reader [x24; x8d] [] None)
    = (Returned (inr 0x248D), Reader [] [] None) /\
  (0x24 < 0xC0 \/ 0xE0 <= 0x24 < 0xF8 \/ 0x24 = 0xFE).
Proof.
  assert (readUnsignedByte (rd_in (Reader [x24; x8d] [] None))
          = (Returned 0x24, [x8d])) as E1 by reflexivity.
  assert (read_penta VALID_CIPHER_java (Reader [x24; x8d] [] None)
          = (Returned (inr 0x248D), Reader [] [] None)) as E
    by (vm_compute; reflexivity).
  split; [exact E1|]. split; [exact E|].
  exact (proj1 (readSymbol_penta_tiers VALID_CIPHER_java
                  (toString initialized) _ _ _ _ _ E1 E)).
Defined.

(** The claim C6 as stated fails in the 35-bit tier: the bytes
    [0xF0 0x42 0x10 0x84 0x21] carry the packed penta of ["AAAAAAA"], whose
    width is 35 and whose top group is 1; [encodePenta] returns 0 and
    [readSymbol] takes the fallback, storing the rendered string. *)
Lemma readSymbol_fallback_reached :
  read_penta VALID_CIPHER_java (Reader [xf0; x42; x10; x84; x21] [] None)
    = (Returned (inr 0x42108421), Reader [] [] None) /\
  infer_plen 0x42108421 = Some 35 /\
  encodePenta initialized 0x42108421 35 = 0 /\
  run [xf0; x42; x10; x84; x21] [] None =
    (Returned 0, Reader [] [] (Some (jstr "AAAAAAA"))).
Proof. repeat split; vm_compute; reflexivity. Qed.

(** ** The wildcard cipher *)

(** [initSymbolCodec] does not assign [WILDCARD_CIPHER]. *)
Lemma initSymbolCodec_keeps_WILDCARD_CIPHER g :
  sized g -> WILDCARD_CIPHER (snd (initSymbolCodec g)) = WILDCARD_CIPHER g.
Proof. intros Hg. rewrite (initSymbolCodec_eq g Hg). reflexivity. Qed.

(** C9, evaluated on the code.  After the start of the program and a call
    of [initSymbolCodec] whose final test passes (control reaches the end
    of the function), [WILDCARD_CIPHER] still holds what its
    initializer computed over the zero-filled tables, [0x40000000], which is
    the cipher of the empty symbol; [encode("*")] over the initialized
    tables is [0x400003C8].  Both are non-zero, and they differ. *)
Theorem WILDCARD_CIPHER_after_init :
  fst (initSymbolCodec startup) = EndReached /\
  WILDCARD_CIPHER initialized = 0x40000000 /\
  encode initialized (Some (jstr "*")) = 0x400003C8 /\
  WILDCARD_CIPHER initialized <> encode initialized (Some (jstr "*")) /\
  WILDCARD_CIPHER initialized = encode initialized (Some []) /\
  PLEN (chr "*") = 10 /\ PENTA (chr "*") = 968.
Proof.
  assert (WILDCARD_CIPHER initialized = 0x40000000) as E1
    by (vm_compute; reflexivity).
  assert (encode initialized (Some (jstr "*")) = 0x400003C8) as E2
    by (vm_compute; reflexivity).
  split; [vm_compute; reflexivity|]. split; [exact E1|]. split; [exact E2|].
  split; [rewrite E1, E2; lia|].
  repeat split; vm_compute; reflexivity.
Qed.

(** * Further properties of the codec *)

(** ** Which symbols [encode] accepts *)

Lemma all_eligible_or_not s :
  all_eligible s \/ exists c, In c s /\ eligible c = false.
Proof.
  induction s as [|c r [IH|(c' & Hin & Hc')]].
  - left. constructor.
  - destruct (eligible c) eqn:Hc.
    + left. constructor; assumption.
    + right. exists c. split; [left; reflexivity|exact Hc].
  - right. exists c'. split; [right; exact Hin|exact Hc'].
Qed.

Lemma encode_zero_of_ineligible s c :
  In c s -> eligible c = false -> encode initialized (Some s) = 0.
Proof.
  intros Hin Hc. unfold encode.
  destruct (Z.gtb_spec (Z.of_nat (length s)) 7) as [|Hlen]; [reflexivity|].
  pose proof (encode_loop_plen s 0 0 ltac:(lia) ltac:(pow2; lia)) as Hloop.
  destruct (encode_loop initialized s 0 0) as [[penta plen]|]; [|reflexivity].
  destruct Hloop as [_ Hplen].
  assert (0 + 64 <= plen) as Hge.
  { apply Hplen. exists c. split; [exact Hin|]. now apply ineligible_iff. }
  assert ((plen >? 35) = true) as -> by lia. reflexivity.
Qed.

Lemma packed_plen_bounds s :
  all_eligible s ->
  5 * Z.of_nat (length s) <= packed_plen initialized s
    <= 10 * Z.of_nat (length s).
Proof.
  induction 1 as [|c r Hc Hr IH]; [cbn; lia|].
  cbn [packed_plen foldr length]. fold (packed_plen initialized r).
  destruct (eligible_cases c Hc) as (_ & _ & Hrow). lia.
Qed.

(** On eligible characters the loop of [encode] adds up the table lengths
    exactly, also beyond 35 bits. *)
Lemma encode_loop_eligible_plen s :
  all_eligible s ->
  forall p l,
    0 <= l -> l + packed_plen initialized s < 2 ^ 31 ->
    exists penta,
      encode_loop initialized s p l
        = Some (penta, l + packed_plen initialized s).
Proof.
  induction 1 as [|c r Hc Hr IH]; intros p l Hl Hb.
  - exists p. cbn [encode_loop packed_plen foldr]. now rewrite Z.add_0_r.
  - cbn [packed_plen foldr] in *. fold (packed_plen initialized r) in *.
    pose proof (packed_plen_groups r Hr) as Hg.
    destruct (eligible_cases c Hc) as (Hr128 & _ & Hrow).
    cbn [encode_loop].
    rewrite Z.geb_leb, (proj2 (Z.leb_gt 128 c)) by lia.
    rewrite to_jInt_id by (unfold is_jInt; pow2; lia).
    destruct (IH (to_jLong (jlong_shl p (PLEN c) + PENTA c)) (l + PLEN c)
                ltac:(lia) ltac:(lia)) as [penta E].
    exists penta. rewrite E. f_equal. f_equal. lia.
Qed.

(** A non-zero result of [encode] comes from eligible characters that pack
    into 35 bits. *)
Lemma encode_nonzero_packed s :
  encode initialized (Some s) <> 0 ->
  all_eligible s /\ packed_plen initialized s <= 35.
Proof.
  intros Hnz. destruct (all_eligible_or_not s) as [Hs|(c & Hin & Hc)].
  2: { exfalso. apply Hnz. exact (encode_zero_of_ineligible s c Hin Hc). }
  split; [exact Hs|].
  destruct (Z.le_gt_cases (packed_plen initialized s) 35) as [|Hgt];
    [assumption|exfalso]. apply Hnz. unfold encode.
  destruct (Z.gtb_spec (Z.of_nat (length s)) 7) as [|Hlen]; [reflexivity|].
  pose proof (packed_plen_bounds s Hs) as Hb.
  destruct (encode_loop_eligible_plen s Hs 0 0 ltac:(lia) ltac:(pow2; lia))
    as [penta E].
  rewrite E, Z.add_0_l.
  assert ((packed_plen initialized s >? 35) = true) as -> by lia.
  reflexivity.
Qed.

(** The top group of a packed penta of 35 bits. *)
Lemma packed_top_group c r :
  all_eligible (c :: r) -> packed_plen initialized (c :: r) = 35 ->
  (PLEN c = 5 /\ packed (c :: r) / 2 ^ 30 = PENTA c) \/
  (PLEN c = 10 /\ (packed (c :: r) / 2 ^ 30 = 30 \/
                   packed (c :: r) / 2 ^ 30 = 31)).
Proof.
  intros Hs H35. apply Forall_cons in Hs as [Hc Hr].
  cbn [packed packed_plen foldr] in *. fold (packed_plen initialized r) in *.
  pose proof (packed_range r Hr) as Hv.
  set (b := packed_plen initialized r) in *.
  destruct (eligible_cases c Hc) as (_ & _ & [[E Hp]|[E Hp]]); rewrite E in H35.
  - left. split; [exact E|].
    assert (b = 30) as Hb by lia. rewrite Hb in *.
    apply quotient_of with (packed r); [pow2; lia|exact Hv|reflexivity].
  - right. split; [exact E|].
    assert (b = 25) as Hb by lia. rewrite Hb in *.
    destruct (escape_group _ Hp) as (Hesc & Hlow & Hsplit).
    assert ((PENTA c * 2 ^ 25 + packed r) / 2 ^ 30 = PENTA c / 32) as Hq.
    { apply quotient_of with (PENTA c mod 32 * 2 ^ 25 + packed r);
        [pow2; lia|pow2; lia|].
      rewrite <- Hsplit at 1. change (2 ^ 30) with (32 * 2 ^ 25). ring. }
    rewrite Hq. exact Hesc.
Qed.

(** X1. [encode] returns a non-zero cipher exactly for the symbols made of
    eligible characters whose packed width is at most 30 bits, or is 35
    bits with ['/'] or ['$'] as first character. *)
Theorem encode_nonzero_iff (s : jstring) :
  encode initialized (Some s) <> 0 <->
  Forall (fun c => eligible c = true) s /\
  (packed_plen initialized s <= 30 \/
   (packed_plen initialized s = 35 /\
    exists r, s = chr "/" :: r \/ s = chr "$" :: r)).
Proof.
  split.
  - intros Hnz. destruct (encode_nonzero_packed s Hnz) as [Hs Hle].
    split; [exact Hs|].
    rewrite (encode_packed s Hs Hle) in Hnz.
    pose proof (packed_width s Hs Hle) as Hw.
    destruct (encodePenta_value _ _ Hw)
      as [(H30 & _)|[(H35 & Hq & _)|[(H35 & Hq & _)|(_ & _ & _ & E)]]];
      [left; exact H30| | |contradiction]; right; (split; [exact H35|]).
    + destruct s as [|c r]; [discriminate H35|]. exists r. left. f_equal.
      destruct (packed_top_group c r Hs H35) as [[_ Hc]|[_ Hc]]; [|lia].
      apply Forall_cons in Hs as [Hc' _].
      destruct (eligible_cases c Hc') as (_ & Hch & _).
      rewrite <- Hch, <- Hc, Hq. vm_compute. reflexivity.
    + destruct s as [|c r]; [discriminate H35|]. exists r. right. f_equal.
      destruct (packed_top_group c r Hs H35) as [[_ Hc]|[_ Hc]]; [|lia].
      apply Forall_cons in Hs as [Hc' _].
      destruct (eligible_cases c Hc') as (_ & Hch & _).
      rewrite <- Hch, <- Hc, Hq. vm_compute. reflexivity.
  - intros (Hs & Hcase).
    assert (packed_plen initialized s <= 35) as Hle by lia.
    rewrite (encode_packed s Hs Hle).
    pose proof (packed_width s Hs Hle) as Hw.
    pose proof Hw as (_ & _ & Hp & _).
    destruct (encodePenta_value _ _ Hw)
      as [(_ & E)|[(_ & _ & E)|[(_ & _ & E)|(H35 & N28 & N29 & _)]]];
      try (rewrite E; divmod).
    exfalso. destruct Hcase as [?|(_ & r & [ -> | -> ])]; [lia| |].
    + destruct (packed_top_group _ r Hs H35) as [[_ Hc]|[Hc _]].
      * apply N28. rewrite Hc. vm_compute. reflexivity.
      * vm_compute in Hc. discriminate Hc.
    + destruct (packed_top_group _ r Hs H35) as [[_ Hc]|[Hc _]].
      * apply N29. rewrite Hc. vm_compute. reflexivity.
      * vm_compute in Hc. discriminate Hc.
Qed.

(** X2. [encode] is injective on the symbols it accepts: two symbols with
    the same non-zero cipher are equal. *)
Theorem encode_injective (s1 s2 : jstring) :
  encode initialized (Some s1) <> 0 ->
  encode initialized (Some s1) = encode initialized (Some s2) ->
  s1 = s2.
Proof.
  intros Hnz1 Heq. assert (encode initialized (Some s2) <> 0) as Hnz2
    by (rewrite <- Heq; exact Hnz1).
  destruct (encode_nonzero_packed s1 Hnz1) as [Hs1 Hle1].
  destruct (encode_nonzero_packed s2 Hnz2) as [Hs2 Hle2].
  rewrite (encode_packed s1 Hs1 Hle1) in Hnz1, Heq.
  rewrite (encode_packed s2 Hs2 Hle2) in Hnz2, Heq.
  destruct (decodeCipher_encodePenta _ _ (packed_width s1 Hs1 Hle1) Hnz1)
    as [Hd1 Hp1].
  destruct (decodeCipher_encodePenta _ _ (packed_width s2 Hs2 Hle2) Hnz2)
    as [Hd2 Hp2].
  rewrite Heq in Hd1, Hp1. rewrite Hd1 in Hd2.
  assert (packed s1 = packed s2) as Hpk by congruence.
  rewrite Hpk, Hp2 in Hp1.
  assert (packed_plen initialized s2 = packed_plen initialized s1) as Hpl
    by congruence.
  rewrite (packed_plen_groups s1 Hs1), (packed_plen_groups s2 Hs2) in Hpl.
  assert (groups s1 = groups s2) as Hg by lia.
  pose proof (peel_packed s1 Hs1 0 ltac:(lia)) as P1.
  pose proof (peel_packed s2 Hs2 0 ltac:(lia)) as P2.
  rewrite Z.mul_0_l, Z.add_0_l in P1, P2.
  rewrite Hpk, Hg, P2 in P1. congruence.
Qed.

Lemma encode_injective_witness :
  encode initialized (Some (jstr "IBM")) <> 0 /\
  encode initialized (Some (jstr "IBM")) = encode initialized (Some (jstr "IBM")) /\
  jstr "IBM" = jstr "IBM".
Proof.
  assert (encode initialized (Some (jstr "IBM")) <> 0) as Hnz
    by (vm_compute; congruence).
  split; [exact Hnz|]. split; [reflexivity|].
  exact (encode_injective (jstr "IBM") (jstr "IBM") Hnz eq_refl).
Defined.

(** X3. Whatever the input, [encode] returns 0 or a 32-bit value whose tag
    is 1, 2 or 3; [decodeCipher] accepts every non-zero result of
    [encode]. *)
Theorem encode_result_tagged (symbol : option jstring) :
  is_jInt (encode initialized symbol) /\
  (encode initialized symbol = 0 \/
   (tag (encode initialized symbol) <> 0 /\
    exists penta,
      decodeCipher initialized (encode initialized symbol) = inr penta)).
Proof.
  destruct symbol as [s|]; [|split; [vm_compute; split; congruence|left; reflexivity]].
  destruct (Z.eq_dec (encode initialized (Some s)) 0) as [E|Hnz].
  { rewrite E. split; [vm_compute; split; congruence|left; reflexivity]. }
  destruct (encode_nonzero_packed s Hnz) as [Hs Hle].
  pose proof (packed_width s Hs Hle) as Hw.
  destruct (decodeCipher_encodePenta _ _ Hw
              ltac:(rewrite <- (encode_packed s Hs Hle); exact Hnz)) as [Hd _].
  rewrite (encode_packed s Hs Hle) in *.
  pose proof Hw as ((HL0 & _) & _ & Hp & _).
  assert (packed s < 2 ^ 35) as H35
    by (pose proof (pow2_le_mono (packed_plen initialized s) 35
                      ltac:(lia)); lia).
  assert (is_jInt (encodePenta initialized (packed s)
                     (packed_plen initialized s))) as Hj.
  { destruct (encodePenta_value _ _ Hw)
      as [(H30 & E)|[(_ & _ & E)|[(_ & _ & E)|(_ & _ & _ & E)]]];
      rewrite E; unfold is_jInt.
    - pose proof (pow2_le_mono (packed_plen initialized s) 30 ltac:(lia)).
      pow2. lia.
    - divmod.
    - divmod.
    - pow2. lia. }
  split; [exact Hj|]. right. split; [|eexists; exact Hd].
  intros Ht. unfold decodeCipher in Hd. fold (tag (encodePenta initialized
    (packed s) (packed_plen initialized s))) in Hd. rewrite Ht in Hd.
  discriminate Hd.
Qed.

(** ** What [decodeCipher] accepts *)

Lemma tag_range cipher : 0 <= tag cipher < 4.
Proof. unfold tag, to_uInt. rewrite shiftr_30. divmod. Qed.

(** X4. [decodeCipher] never reaches its [default] branch: it reports
    [pr_illegal_argument] exactly when the tag of the cipher is 0, and
    stores a penta otherwise, whatever the tables hold. *)
Theorem decodeCipher_no_internal_error (g : globals) (cipher : Z) :
  decodeCipher g cipher <> inl pr_internal_error /\
  (decodeCipher g cipher = inl pr_illegal_argument <-> tag cipher = 0) /\
  (tag cipher <> 0 -> exists penta, decodeCipher g cipher = inr penta).
Proof.
  unfold decodeCipher. fold (tag cipher).
  pose proof (tag_range cipher) as Hr.
  assert (tag cipher = 0 \/ tag cipher = 1 \/ tag cipher = 2 \/ tag cipher = 3)
    as [E|[E|[E|E]]] by lia; rewrite E.
  - split; [discriminate|]. split; [tauto|]. intros; contradiction.
  - split; [discriminate|]. split; [split; [discriminate|lia]|].
    intros _. eexists; reflexivity.
  - split; [discriminate|]. split; [split; [discriminate|lia]|].
    intros _. eexists; reflexivity.
  - split; [discriminate|]. split; [split; [discriminate|lia]|].
    intros _. eexists; reflexivity.
Qed.

(** X5. Over the initialized tables [decodeCipher] is injective on 32-bit
    ciphers, and every penta it stores fits in 35 bits: the three tags
    decode into disjoint ranges. *)
Theorem decodeCipher_injective (c1 c2 penta : Z) :
  is_jInt c1 -> is_jInt c2 ->
  decodeCipher initialized c1 = inr penta ->
  decodeCipher initialized c2 = inr penta ->
  c1 = c2 /\ 0 <= penta < 2 ^ 35.
Proof.
  intros H1 H2 D1 D2.
  assert (tag c1 <> 0) as T1.
  { intros E. unfold decodeCipher in D1. fold (tag c1) in D1.
    rewrite E in D1. discriminate D1. }
  assert (tag c2 <> 0) as T2.
  { intros E. unfold decodeCipher in D2. fold (tag c2) in D2.
    rewrite E in D2. discriminate D2. }
  destruct (decodeCipher_tagged c1 H1 T1) as (p1 & E1 & R1 & A1 & B1 & C1).
  destruct (decodeCipher_tagged c2 H2 T2) as (p2 & E2 & R2 & A2 & B2 & C2).
  rewrite D1 in E1. rewrite D2 in E2.
  assert (p1 = penta) as -> by congruence.
  assert (p2 = penta) as -> by congruence.
  split; [|exact R1].
  destruct (tag_cases c1 H1) as [[? ?]|[[X1 ?]|[[X1 ?]|[X1 ?]]]];
    [contradiction| | |];
  destruct (tag_cases c2 H2) as [[? ?]|[[X2 ?]|[[X2 ?]|[X2 ?]]]];
    try contradiction;
  repeat match goal with
  | A : tag ?c = ?n -> _, X : tag ?c = ?n |- _ => specialize (A X)
  end; pow2; lia.
Qed.

Lemma decodeCipher_injective_witness :
  is_jInt 0x4000248D /\
  decodeCipher initialized 0x4000248D = inr 0x248D /\
  0 <= 0x248D < 2 ^ 35.
Proof.
  assert (is_jInt 0x4000248D) as Hc by (vm_compute; split; congruence).
  assert (decodeCipher initialized 0x4000248D = inr 0x248D) as Hd
    by (vm_compute; reflexivity).
  split; [exact Hc|]. split; [exact Hd|].
  exact (proj2 (decodeCipher_injective _ _ _ Hc Hc Hd Hd)).
Defined.

(** X6. For a penta of width [plen] (a multiple of 5 up to 35 whose top
    group is not zero), [encodePenta] returns 0 or a cipher that
    [decodeCipher] maps back to the same penta. *)
Theorem decodeCipher_encodePenta_round_trip (penta plen : Z) :
  width_of penta plen ->
  encodePenta initialized penta plen = 0 \/
  decodeCipher initialized (encodePenta initialized penta plen) = inr penta.
Proof.
  intros Hw.
  destruct (Z.eq_dec (encodePenta initialized penta plen) 0) as [E|Hnz];
    [left; exact E|right].
  exact (proj1 (decodeCipher_encodePenta penta plen Hw Hnz)).
Qed.

Lemma decodeCipher_encodePenta_round_trip_witness :
  width_of 0x700000005 35 /\
  decodeCipher initialized (encodePenta initialized 0x700000005 35)
    = inr 0x700000005.
Proof.
  assert (width_of 0x700000005 35) as Hw.
  { unfold width_of. repeat split; try (vm_compute; congruence).
    right. vm_compute. congruence. }
  split; [exact Hw|].
  destruct (decodeCipher_encodePenta_round_trip 0x700000005 35 Hw) as [E|E];
    [vm_compute in E; discriminate E|exact E].
Defined.

(** ** More on the character tables *)

(** X7. [initSymbolCodec] builds the same three tables from any prior
    contents of the arrays and keeps their sizes, and running it again on
    the globals it left changes none of them. *)
Theorem initSymbolCodec_idempotent (g1 g2 : globals) :
  sized g1 -> sized g2 ->
  let r1 := snd (initSymbolCodec g1) in
  let r2 := snd (initSymbolCodec g2) in
  pentas r1 = pentas r2 /\ plength r1 = plength r2 /\
  characters r1 = characters r2 /\
  sized r1 /\ snd (initSymbolCodec r1) = r1.
Proof.
  intros H1 H2 r1 r2. subst r1 r2.
  rewrite (initSymbolCodec_eq g1 H1), (initSymbolCodec_eq g2 H2).
  cbn [snd pentas plength characters].
  assert (sized (Globals (pentas initialized) (plength initialized)
                   (characters initialized) (WILDCARD_CIPHER g1))) as Hs
    by (unfold sized; cbn [pentas plength characters]; vm_compute; auto).
  split; [reflexivity|]. split; [reflexivity|]. split; [reflexivity|].
  split; [exact Hs|].
  rewrite (initSymbolCodec_eq _ Hs). reflexivity.
Qed.

Lemma initSymbolCodec_idempotent_witness :
  sized zeroed /\ sized startup /\
  pentas (snd (initSymbolCodec zeroed)) = pentas (snd (initSymbolCodec startup)).
Proof.
  assert (sized zeroed) as H1 by (vm_compute; auto).
  assert (sized startup) as H2 by (vm_compute; auto).
  split; [exact H1|]. split; [exact H2|].
  exact (proj1 (initSymbolCodec_idempotent zeroed startup H1 H2)).
Defined.

Lemma ten_bit_pairs :
  forallb (fun c1 => forallb (ten_bit_ordered c1) (seqZ 32 95)) (seqZ 32 95)
    = true.
Proof. vm_compute. reflexivity. Qed.

Lemma ten_bit_range c : ten_bit c = true -> 32 <= c <= 126.
Proof. unfold ten_bit. literals. lia. Qed.

(** X8. The order in which [initSymbolCodec] hands out pentas: ['A'..'Z']
    get [1..26] in order, ['.'], ['/'] and ['$'] get 27, 28 and 29, all
    with length 5 and none overwritten by the later loop; the 10-bit pentas
    are assigned in increasing order of the character code, from [' '] at
    960 to ['~'] at 1023. *)
Theorem penta_assignment_order :
  (forall c, chr "A" <= c <= chr "Z" ->
     PENTA c = c - chr "A" + 1 /\ PLEN c = 5) /\
  (PENTA (chr ".") = 27 /\ PLEN (chr ".") = 5) /\
  (PENTA (chr "/") = 28 /\ PLEN (chr "/") = 5) /\
  (PENTA (chr "$") = 29 /\ PLEN (chr "$") = 5) /\
  (forall c1 c2, ten_bit c1 = true -> ten_bit c2 = true -> c1 < c2 ->
     PENTA c1 < PENTA c2) /\
  PENTA (chr " ") = 960 /\ PENTA (chr "~") = 1023.
Proof.
  split.
  { assert (forallb (fun c => (PENTA c =? c - chr "A" + 1) && (PLEN c =? 5))
              (seqZ 65 26) = true) as Hall by (vm_compute; reflexivity).
    intros c Hc. literals.
    pose proof (forallb_seqZ _ 65 26 Hall c ltac:(lia)) as Hrow.
    cbv beta in Hrow. literals. lia. }
  do 3 (split; [split; vm_compute; reflexivity|]).
  split; [|split; vm_compute; reflexivity].
  intros c1 c2 H1 H2 Hlt.
  pose proof (ten_bit_range c1 H1) as R1. pose proof (ten_bit_range c2 H2) as R2.
  pose proof (forallb_seqZ _ 32 95 ten_bit_pairs c1 ltac:(lia)) as Hrow.
  cbv beta in Hrow.
  pose proof (forallb_seqZ _ 32 95 Hrow c2 ltac:(lia)) as Hpair.
  unfold ten_bit_ordered in Hpair. rewrite H1, H2 in Hpair.
  rewrite (proj2 (Z.ltb_lt c1 c2) Hlt) in Hpair. cbn [andb implb] in Hpair.
  lia.
Qed.

(** X9. The code is prefix-free and the inverse table has no stray
    entries: a 5-bit penta is never 0, 30 or 31; the top five bits of a
    10-bit penta are always 30 or 31; and [characters[p]] is 0 exactly for
    the pentas outside [{1..29} ∪ {960..1023}], among them all of
    [32..959]. *)
Theorem penta_prefix_free :
  (forall c, eligible c = true -> PLEN c = 5 ->
     PENTA c <> 0 /\ PENTA c <> 30 /\ PENTA c <> 31) /\
  (forall c, eligible c = true -> PLEN c = 10 ->
     PENTA c / 32 = 30 \/ PENTA c / 32 = 31) /\
  (forall p, 0 <= p < 1024 -> (CHAR p = 0 <-> penta_set p = false)).
Proof.
  split; [|split].
  - intros c Hc H5. destruct (eligible_cases c Hc) as (_ & _ & Hrow). lia.
  - intros c Hc H10. destruct (eligible_cases c Hc) as (_ & _ & [[? _]|[_ Hp]]);
      [lia|]. exact (proj1 (escape_group _ Hp)).
  - intros p Hp. pose proof (penta_rows p Hp) as Hrow.
    unfold penta_row_ok in Hrow. destruct (penta_set p) eqn:Hs.
    + apply andb_true_iff in Hrow as [He _].
      pose proof (eligible_range _ He). split; [lia|discriminate].
    + split; [reflexivity|intros _; lia].
Qed.

(** ** More on the wire reader *)

Section ReadSymbolPaths.

Context {I : Type} `{BufferedInput I}.
Variable g : globals.
Variable VALID_CIPHER : Z.
Variable toString : Z -> outcome jstring.

(** The dispatch once the first byte is known. *)
Lemma read_penta_dispatch (st : reader I) (i : Z) (i1 : I) :
  readUnsignedByte (rd_in st) = (Returned i, i1) ->
  read_penta VALID_CIPHER st =
    (fun i : Z =>
       if i <? 0x80 then
         let! b := on_in readUnsignedByte in
         ret (inr (to_jInt (jint_shl i 8 + b)))
       else if i <? 0xC0 then
         let! b := on_in readUnsignedByte in
         let! s := on_in readUnsignedShort in
         ret (inr (to_jInt (to_jInt (jint_shl (Z.land i 0x3F) 24
                                     + jint_shl b 16) + s)))
       else if i <? 0xE0 then
         throw (IOException "Reserved bit sequence.")
       else if i <? 0xF0 then
         let! s := on_in readUnsignedShort in
         ret (inr (to_jInt (jint_shl (Z.land i 0x0F) 16 + s)))
       else if i <? 0xF8 then
         let! x := on_in readInt in
         ret (inr (to_jLong (jlong_shl (Z.land i 0x07) 32
                             + Z.land x 0xFFFFFFFF)))
       else if i <? 0xFC then
         throw (IOException "Reserved bit sequence.")
       else if i =? 0xFC then
         let! s := on_in readUTFString in
         let! _ := set_result s in
         ret (inl 0)
       else if i =? 0xFD then
         let! r := read_cesu8 VALID_CIPHER in ret (inl r)
       else if i =? 0xFE then
         ret (inr 0)
       else
         let! _ := set_result None in
         ret (inl 0)) i (Reader i1 (rd_buffer st) (rd_result st)).
Proof.
  intros E1. unfold read_penta. unfold bind at 1. unfold on_in at 1.
  rewrite E1. reflexivity.
Qed.

(** [readSymbol] when the dispatch throws. *)
Lemma readSymbol_of_thrown (st st1 : reader I) (e : exn) :
  read_penta VALID_CIPHER st = (Thrown e, st1) ->
  readSymbol g VALID_CIPHER toString st = (Thrown e, st1).
Proof. intros E. unfold readSymbol, bind. rewrite E. reflexivity. Qed.

(** [readSymbol] when the dispatch returns at once. *)
Lemma readSymbol_of_return (st st1 : reader I) (v : Z) :
  read_penta VALID_CIPHER st = (Returned (inl v), st1) ->
  readSymbol g VALID_CIPHER toString st = (Returned v, st1).
Proof. intros E. unfold readSymbol, bind. rewrite E. reflexivity. Qed.

(** X10. A first byte in one of the reserved ranges ([0xC0-0xDF],
    [0xF8-0xFB]) makes [readSymbol] throw the reserved-bit-sequence error
    after reading that one byte; buffer and result slot are untouched. *)
Theorem readSymbol_reserved (st : reader I) (i : Z) (i1 : I) :
  readUnsignedByte (rd_in st) = (Returned i, i1) ->
  0xC0 <= i < 0xE0 \/ 0xF8 <= i < 0xFC ->
  readSymbol g VALID_CIPHER toString st =
    (Thrown (IOException "Reserved bit sequence."),
     Reader i1 (rd_buffer st) (rd_result st)).
Proof.
  intros E1 Hi. apply readSymbol_of_thrown.
  rewrite (read_penta_dispatch st i i1 E1). cbv beta.
  destruct Hi as [Hi|Hi].
  - rewrite (proj2 (Z.ltb_ge i 0x80)), (proj2 (Z.ltb_ge i 0xC0)),
      (proj2 (Z.ltb_lt i 0xE0)) by lia. reflexivity.
  - rewrite (proj2 (Z.ltb_ge i 0x80)), (proj2 (Z.ltb_ge i 0xC0)),
      (proj2 (Z.ltb_ge i 0xE0)), (proj2 (Z.ltb_ge i 0xF0)),
      (proj2 (Z.ltb_ge i 0xF8)), (proj2 (Z.ltb_lt i 0xFC)) by lia.
    reflexivity.
Qed.

(** X11. The two string-free sentinels of the wire format: on [0xFF]
    [readSymbol] stores [null] and returns 0 after that one byte; on [0xFC]
    it stores whatever [readUTFString] returns (possibly [null]) and
    returns 0.  The buffer is untouched in both cases. *)
Theorem readSymbol_void_and_utf8 (st : reader I) (i1 : I) :
  (readUnsignedByte (rd_in st) = (Returned 0xFF, i1) ->
   readSymbol g VALID_CIPHER toString st =
     (Returned 0, Reader i1 (rd_buffer st) None)) /\
  (forall (s : option jstring) (i2 : I),
     readUnsignedByte (rd_in st) = (Returned 0xFC, i1) ->
     readUTFString i1 = (Returned s, i2) ->
     readSymbol g VALID_CIPHER toString st =
       (Returned 0, Reader i2 (rd_buffer st) s)).
Proof.
  split.
  - intros E1. apply readSymbol_of_return.
    rewrite (read_penta_dispatch st _ i1 E1). reflexivity.
  - intros s i2 E1 E2. apply readSymbol_of_return.
    rewrite (read_penta_dispatch st _ i1 E1). cbv beta.
    change (0xFC <? 0x80) with false. change (0xFC <? 0xC0) with false.
    change (0xFC <? 0xE0) with false. change (0xFC <? 0xF0) with false.
    change (0xFC <? 0xF8) with false. change (0xFC <? 0xFC) with false.
    change (0xFC =? 0xFC) with true. cbv iota.
    unfold bind, on_in, set_result, ret. cbn [rd_in rd_buffer rd_result].
    rewrite E2. reflexivity.
Qed.

(** X12. The payload arithmetic of the four penta tiers never wraps: the
    penta is the big-endian number formed by the low bits of the first byte
    and the payload bytes. *)
Theorem read_penta_values (st : reader I) (i : Z) (i1 : I) :
  readUnsignedByte (rd_in st) = (Returned i, i1) ->
  (i < 0x80 -> forall b i2,
     readUnsignedByte i1 = (Returned b, i2) ->
     read_penta VALID_CIPHER st =
       (Returned (inr (i * 2 ^ 8 + b)),
        Reader i2 (rd_buffer st) (rd_result st))) /\
  (0x80 <= i < 0xC0 -> forall b i2 s i3,
     readUnsignedByte i1 = (Returned b, i2) ->
     readUnsignedShort i2 = (Returned s, i3) ->
     read_penta VALID_CIPHER st =
       (Returned (inr ((i - 0x80) * 2 ^ 24 + b * 2 ^ 16 + s)),
        Reader i3 (rd_buffer st) (rd_result st))) /\
  (0xE0 <= i < 0xF0 -> forall s i2,
     readUnsignedShort i1 = (Returned s, i2) ->
     read_penta VALID_CIPHER st =
       (Returned (inr ((i - 0xE0) * 2 ^ 16 + s)),
        Reader i2 (rd_buffer st) (rd_result st))) /\
  (0xF0 <= i < 0xF8 -> forall x i2,
     readInt i1 = (Returned x, i2) ->
     read_penta VALID_CIPHER st =
       (Returned (inr ((i - 0xF0) * 2 ^ 32 + x mod 2 ^ 32)),
        Reader i2 (rd_buffer st) (rd_result st))).
Proof.
  clear g toString.
  intros E1. pose proof (readUnsignedByte_range _ _ _ E1) as Hi.
  rewrite (read_penta_dispatch st i i1 E1). cbv beta.
  split; [|split; [|split]].
  - intros Hlt b i2 Eb. pose proof (readUnsignedByte_range _ _ _ Eb) as Hb.
    rewrite (proj2 (Z.ltb_lt i 0x80)) by lia.
    unfold bind, on_in, ret. cbn [rd_in rd_buffer rd_result]. rewrite Eb.
    do 3 f_equal. unfold jint_shl. change (Z.land 8 31) with 8.
    rewrite Z.shiftl_mul_pow2 by lia. unfold to_jInt. divmod.
  - intros Hr b i2 s i3 Eb Es.
    pose proof (readUnsignedByte_range _ _ _ Eb) as Hb.
    pose proof (readUnsignedShort_range _ _ _ Es) as Hs.
    rewrite (proj2 (Z.ltb_ge i 0x80)), (proj2 (Z.ltb_lt i 0xC0)) by lia.
    unfold bind, on_in, ret. cbn [rd_in rd_buffer rd_result]. rewrite Eb.
    cbn [rd_in rd_buffer rd_result]. rewrite Es.
    do 3 f_equal. unfold jint_shl.
    change (Z.land 24 31) with 24. change (Z.land 16 31) with 16.
    change 0x3F with (Z.ones 6). rewrite Z.land_ones by lia.
    rewrite !Z.shiftl_mul_pow2 by lia. unfold to_jInt. divmod.
  - intros Hr s i2 Es. pose proof (readUnsignedShort_range _ _ _ Es) as Hs.
    rewrite (proj2 (Z.ltb_ge i 0x80)), (proj2 (Z.ltb_ge i 0xC0)),
      (proj2 (Z.ltb_ge i 0xE0)), (proj2 (Z.ltb_lt i 0xF0)) by lia.
    unfold bind, on_in, ret. cbn [rd_in rd_buffer rd_result]. rewrite Es.
    do 3 f_equal. unfold jint_shl. change (Z.land 16 31) with 16.
    change 0x0F with (Z.ones 4). rewrite Z.land_ones by lia.
    rewrite Z.shiftl_mul_pow2 by lia. unfold to_jInt. divmod.
  - intros Hr x i2 Ex.
    rewrite (proj2 (Z.ltb_ge i 0x80)), (proj2 (Z.ltb_ge i 0xC0)),
      (proj2 (Z.ltb_ge i 0xE0)), (proj2 (Z.ltb_ge i 0xF0)),
      (proj2 (Z.ltb_lt i 0xF8)) by lia.
    unfold bind, on_in, ret. cbn [rd_in rd_buffer rd_result]. rewrite Ex.
    do 3 f_equal. unfold jlong_shl. change (Z.land 32 63) with 32.
    change 0x07 with (Z.ones 3). change 0xFFFFFFFF with (Z.ones 32).
    rewrite !Z.land_ones by lia.
    rewrite Z.shiftl_mul_pow2 by lia. unfold to_jLong. divmod.
Qed.

(** X13. A penta of at most 30 bits is returned as [0x40000000 + penta],
    whatever the tables hold, so the 15-, 20- and 30-bit tiers and [0xFE]
    are read correctly even before [initSymbolCodec] has run. *)
Theorem readSymbol_narrow_penta (st st' : reader I) (penta : Z) :
  read_penta VALID_CIPHER st = (Returned (inr penta), st') ->
  0 <= penta < 2 ^ 30 ->
  readSymbol g VALID_CIPHER toString st = (Returned (penta + 2 ^ 30), st').
Proof.
  intros E Hp. unfold readSymbol. unfold bind at 1. rewrite E.
  unfold cipher_of_penta.
  destruct (infer_plen_total penta ltac:(pow2; lia)) as (L & -> & Hw).
  pose proof (width_le30 penta L Hw ltac:(lia)) as Hle. cbv zeta.
  assert (encodePenta g penta L = penta + 2 ^ 30) as ->.
  { unfold encodePenta. rewrite (proj2 (Z.leb_le L 30) Hle).
    unfold to_jInt. divmod. }
  unfold bind. rewrite (proj2 (Z.eqb_neq (penta + 2 ^ 30) 0)) by (pow2; lia).
  reflexivity.
Qed.

End ReadSymbolPaths.

(** ** The CESU-8 branch *)

Section Cesu8.

Context {I : Type} `{BufferedInput I}.
Variable g : globals.
Variable VALID_CIPHER : Z.
Variable toString : Z -> outcome jstring.

Lemma reader_eta (st : reader I) :
  Reader (rd_in st) (rd_buffer st) (rd_result st) = st.
Proof. destruct st. reflexivity. Qed.

Lemma insert_then_take_drop (chars : list Z) (kn n : nat) (x : Z) (mid : list Z) :
  (kn < length chars)%nat ->
  take (S kn) (<[kn:=x]> chars) ++ mid ++ drop (S kn + n) (<[kn:=x]> chars)
  = take kn chars ++ (x :: mid) ++ drop (kn + S n) chars.
Proof.
  intros Hk.
  rewrite (take_S_r (<[kn:=x]> chars) kn x)
    by (apply list_lookup_insert_eq; exact Hk).
  rewrite take_insert_ge by lia. rewrite drop_insert_lt by lia.
  rewrite <- app_assoc. cbn [app].
  replace (S kn + n)%nat with (kn + S n)%nat by lia. reflexivity.
Qed.

(** The loop of the CESU-8 branch over the characters the source
    delivers: they land in [chars] from index [kn] on, and in the caller's
    buffer when the two are shared. *)
Lemma read_chars_prefix (shared : bool) (cs : list Z) :
  forall (m kn : nat) (chars : list Z) (st : reader I) (i' : I),
    reads_chars (rd_in st) cs i' ->
    Forall (fun c => c <= 0xFFFF) cs ->
    (kn + length cs <= length chars)%nat ->
    (shared = true -> rd_buffer st = chars) ->
    read_chars shared (length cs + m) (Z.of_nat kn) chars st =
    read_chars shared m (Z.of_nat (kn + length cs))
      (take kn chars ++ map to_jChar cs ++ drop (kn + length cs) chars)
      (Reader i'
         (if shared
          then take kn chars ++ map to_jChar cs ++ drop (kn + length cs) chars
          else rd_buffer st)
         (rd_result st)).
Proof.
  induction cs as [|c cs IH]; intros m kn chars st i' Hrd Hbmp Hlen Hsh.
  - inversion Hrd; subst. cbn [length map app Nat.add].
    rewrite Nat.add_0_r, take_drop.
    destruct shared; [rewrite <- (Hsh eq_refl)|]; now rewrite reader_eta.
  - inversion Hrd as [|? ? i1 ? ? Ec Hrest]; subst.
    apply Forall_cons in Hbmp as [Hc Hbmp]. cbn [length] in Hlen.
    cbn [length Nat.add read_chars]. unfold bind at 1. unfold on_in at 1.
    rewrite Ec.
    assert ((c >? 0xFFFF) = false) as -> by lia.
    unfold arr_set. rewrite Nat2Z.id.
    set (chars1 := <[kn:=to_jChar c]> chars).
    assert (length chars1 = length chars) as Hl1 by apply length_insert.
    assert (Z.of_nat kn + 1 = Z.of_nat (S kn)) as -> by lia.
    cbn [map].
    rewrite <- (insert_then_take_drop chars kn (length cs) (to_jChar c)
                  (map to_jChar cs)) by lia.
    replace (kn + S (length cs))%nat with (S kn + length cs)%nat by lia.
    fold chars1.
    destruct shared.
    + unfold bind at 1, set_buffer. cbn [rd_in rd_buffer rd_result].
      rewrite (IH m (S kn) chars1 (Reader i1 chars1 (rd_result st)) i')
        by (cbn [rd_in rd_buffer]; auto; lia).
      reflexivity.
    + unfold bind at 1, ret. cbn [rd_in rd_buffer rd_result].
      rewrite (IH m (S kn) chars1 (Reader i1 (rd_buffer st) (rd_result st)) i')
        by (cbn [rd_in rd_buffer]; auto; try discriminate; lia).
      reflexivity.
Qed.

(** [readSymbol] after the first byte [0xFD] is the CESU-8 branch. *)
Lemma readSymbol_is_cesu8 (st : reader I) (i1 : I) :
  readUnsignedByte (rd_in st) = (Returned 0xFD, i1) ->
  readSymbol g VALID_CIPHER toString st =
    read_cesu8 VALID_CIPHER (Reader i1 (rd_buffer st) (rd_result st)).
Proof.
  intros E1. unfold readSymbol. unfold bind at 1.
  rewrite (read_penta_dispatch VALID_CIPHER st _ i1 E1). cbv beta.
  change (0xFD <? 0x80) with false. change (0xFD <? 0xC0) with false.
  change (0xFD <? 0xE0) with false. change (0xFD <? 0xF0) with false.
  change (0xFD <? 0xF8) with false. change (0xFD <? 0xFC) with false.
  change (0xFD =? 0xFC) with false. change (0xFD =? 0xFD) with true.
  cbv iota. unfold bind.
  destruct (read_cesu8 VALID_CIPHER _) as [[v|e|] st2]; reflexivity.
Qed.

(** The CESU-8 branch up to its loop, for a length between 1 and
    [Integer.MAX_VALUE]. *)
Lemma read_cesu8_loop (st : reader I) (len : Z) (i2 : I) :
  readCompactLong (rd_in st) = (Returned len, i2) ->
  1 <= len <= Integer_MAX_VALUE ->
  read_cesu8 VALID_CIPHER st =
    (let shared := len <=? Z.of_nat (length (rd_buffer st)) in
     let! chars :=
       read_chars shared (Z.to_nat len) 0
         (if shared then rd_buffer st else replicate (Z.to_nat len) 0) in
     if shared && (Z.land len VALID_CIPHER =? 0) then ret len
     else let! _ := set_result (Some (take (Z.to_nat len) chars)) in ret 0)
      (Reader i2 (rd_buffer st) (rd_result st)).
Proof.
  intros E2 Hlen. unfold Integer_MAX_VALUE in Hlen.
  unfold read_cesu8. unfold bind at 1. unfold on_in at 1. rewrite E2.
  unfold Integer_MAX_VALUE.
  assert ((len <? -1) || (len >? 2 ^ 31 - 1) = false) as -> by lia.
  assert ((len =? -1) = false) as -> by lia.
  assert ((len =? 0) = false) as -> by lia.
  unfold bind at 1. unfold get_buffer at 1. cbn [rd_buffer].
  rewrite (to_jInt_id len) by (unfold is_jInt; pow2; lia).
  reflexivity.
Qed.

(** X14. The CESU-8 branch on a legal length.  When the source announces
    [len >= 1] and then delivers [len] code points, none above [0xFFFF]:
    if [len] exceeds the caller's buffer, the buffer is untouched and the
    result slot receives the characters, with return value 0; if [len] fits
    in the buffer, the characters overwrite its first [len] places, and the
    call returns [len] leaving the slot alone when
    [(len & VALID_CIPHER) == 0], or else stores the string and returns 0. *)
Theorem readSymbol_cesu8_string (st : reader I) (i1 i2 i3 : I) (len : Z)
    (cs : list Z) :
  readUnsignedByte (rd_in st) = (Returned 0xFD, i1) ->
  readCompactLong i1 = (Returned len, i2) ->
  reads_chars i2 cs i3 ->
  len = Z.of_nat (length cs) ->
  1 <= len <= Integer_MAX_VALUE ->
  Forall (fun c => c <= 0xFFFF) cs ->
  let buf := rd_buffer st in
  let str := map to_jChar cs in
  readSymbol g VALID_CIPHER toString st =
    if len <=? Z.of_nat (length buf) then
      if Z.land len VALID_CIPHER =? 0 then
        (Returned len,
         Reader i3 (str ++ drop (length cs) buf) (rd_result st))
      else
        (Returned 0, Reader i3 (str ++ drop (length cs) buf) (Some str))
    else (Returned 0, Reader i3 buf (Some str)).
Proof.
  intros E1 E2 Hrd Hlen Hr Hbmp buf str. subst buf str.
  rewrite (readSymbol_is_cesu8 st i1 E1).
  rewrite (read_cesu8_loop (Reader i1 (rd_buffer st) (rd_result st)) len i2
             E2 Hr). cbn [rd_buffer rd_result].
  cbv zeta. unfold bind at 1.
  assert (Z.to_nat len = (length cs + 0)%nat) as -> by lia.
  destruct (Z.leb_spec len (Z.of_nat (length (rd_buffer st)))) as [Hfit|Hbig].
  - pose proof (read_chars_prefix true cs 0 0 (rd_buffer st)
                  (Reader i2 (rd_buffer st) (rd_result st)) i3 Hrd Hbmp
                  ltac:(lia) ltac:(auto)) as Hp.
    change (Z.of_nat 0) with 0 in Hp. rewrite take_0 in Hp. cbn [app] in Hp.
    cbv iota. rewrite Hp. clear Hp.
    cbn [read_chars take app Nat.add rd_result]. unfold ret at 1.
    cbn [andb]. destruct (Z.land len VALID_CIPHER =? 0).
    + subst len. reflexivity.
    + unfold bind, set_result, ret. cbn [rd_in rd_buffer rd_result].
      rewrite Nat.add_0_r.
      rewrite take_app_length' by (now rewrite length_map). reflexivity.
  - pose proof (read_chars_prefix false cs 0 0
                  (replicate (length cs + 0) 0)
                  (Reader i2 (rd_buffer st) (rd_result st)) i3 Hrd Hbmp
                  ltac:(rewrite length_replicate; lia)
                  ltac:(discriminate)) as Hp.
    change (Z.of_nat 0) with 0 in Hp. rewrite take_0 in Hp. cbn [app] in Hp.
    cbv iota. rewrite Hp. clear Hp.
    cbn [read_chars take app Nat.add rd_result rd_buffer]. unfold ret at 1.
    cbn [andb]. unfold bind, set_result, ret.
    cbn [rd_in rd_buffer rd_result]. rewrite Nat.add_0_r.
    rewrite take_app_length' by (now rewrite length_map). reflexivity.
Qed.

(** X15. A code point above [0xFFFF] in the CESU-8 branch.  When the source
    has delivered fewer than [len] legal code points and the next one is
    beyond the BMP, [readSymbol] throws the format error; the result slot is
    untouched, and the characters read so far have already overwritten the
    start of the caller's buffer when [len] fits in it. *)
Theorem readSymbol_cesu8_beyond_BMP (st : reader I) (i1 i2 i3 i4 : I)
    (len : Z) (cs : list Z) (c : Z) :
  readUnsignedByte (rd_in st) = (Returned 0xFD, i1) ->
  readCompactLong i1 = (Returned len, i2) ->
  reads_chars i2 cs i3 ->
  Forall (fun c => c <= 0xFFFF) cs ->
  readUTFChar i3 = (Returned c, i4) ->
  c > 0xFFFF ->
  Z.of_nat (length cs) < len <= Integer_MAX_VALUE ->
  let buf := rd_buffer st in
  readSymbol g VALID_CIPHER toString st =
    (Thrown (UTFDataFormatException "Code point is beyond BMP."),
     Reader i4
       (if len <=? Z.of_nat (length buf)
        then map to_jChar cs ++ drop (length cs) buf else buf)
       (rd_result st)).
Proof.
  intros E1 E2 Hrd Hbmp Ec Hc Hr buf. subst buf.
  rewrite (readSymbol_is_cesu8 st i1 E1).
  rewrite (read_cesu8_loop (Reader i1 (rd_buffer st) (rd_result st)) len i2
             E2 ltac:(lia)). cbn [rd_buffer rd_result].
  cbv zeta. unfold bind at 1.
  assert (exists m, Z.to_nat len = (length cs + S m)%nat) as [m ->]
    by (exists (Z.to_nat len - length cs - 1)%nat; lia).
  assert (forall shared chars b,
    read_chars shared (S m) (Z.of_nat (0 + length cs)) chars
      (Reader i3 b (rd_result st)) =
    (Thrown (UTFDataFormatException "Code point is beyond BMP."),
     Reader i4 b (rd_result st))) as Hfail.
  { intros shared chars b. cbn [read_chars]. unfold bind at 1.
    unfold on_in at 1. cbn [rd_in rd_buffer rd_result]. rewrite Ec.
    assert ((c >? 0xFFFF) = true) as -> by lia. reflexivity. }
  destruct (Z.leb_spec len (Z.of_nat (length (rd_buffer st)))) as [Hfit|Hbig].
  - pose proof (read_chars_prefix true cs (S m) 0 (rd_buffer st)
                  (Reader i2 (rd_buffer st) (rd_result st)) i3 Hrd Hbmp
                  ltac:(lia) ltac:(auto)) as Hp.
    change (Z.of_nat 0) with 0 in Hp. rewrite take_0 in Hp. cbn [app] in Hp.
    cbv iota. rewrite Hp. clear Hp.
    cbn [rd_result]. rewrite Hfail. reflexivity.
  - pose proof (read_chars_prefix false cs (S m) 0
                  (replicate (length cs + S m) 0)
                  (Reader i2 (rd_buffer st) (rd_result st)) i3 Hrd Hbmp
                  ltac:(rewrite length_replicate; lia)
                  ltac:(discriminate)) as Hp.
    change (Z.of_nat 0) with 0 in Hp. rewrite take_0 in Hp. cbn [app] in Hp.
    cbv iota. rewrite Hp. clear Hp.
    cbn [rd_result rd_buffer]. rewrite Hfail. reflexivity.
Qed.

End Cesu8.

(** ** Frame conditions of the reader *)

Section Frames.

Context {I : Type} `{BufferedInput I}.

Variable R : reader I -> reader I -> Prop.
Hypothesis R_refl : forall st, R st st.
Hypothesis R_trans : forall st1 st2 st3, R st1 st2 -> R st2 st3 -> R st1 st3.
Hypothesis R_in : forall st i', R st (Reader i' (rd_buffer st) (rd_result st)).

Lemma respects_ret {A} (a : A) : respects R (@ret I A a).
Proof. intros st r st' E. inversion E; subst. apply R_refl. Qed.

Lemma respects_throw {A} e : respects R (@throw I A e).
Proof. intros st r st' E. inversion E; subst. apply R_refl. Qed.

Lemma respects_diverge {A} : respects R (@diverge I A).
Proof. intros st r st' E. inversion E; subst. apply R_refl. Qed.

Lemma respects_get_buffer : respects R (@get_buffer I).
Proof. intros st r st' E. inversion E; subst. apply R_refl. Qed.

Lemma respects_on_in {A} (op : I -> outcome A * I) : respects R (on_in op).
Proof.
  intros st r st' E. unfold on_in in E.
  destruct (op (rd_in st)) as [r0 i']. inversion E; subst. apply R_in.
Qed.

Lemma respects_bind {A B} (m : M I A) (k : A -> M I B) :
  respects R m -> (forall a, respects R (k a)) -> respects R (bind m k).
Proof.
  intros Hm Hk st r st' E. unfold bind in E.
  destruct (m st) as [[a|e|] st1] eqn:Em.
  - exact (R_trans _ _ _ (Hm _ _ _ Em) (Hk a _ _ _ E)).
  - inversion E; subst. exact (Hm _ _ _ Em).
  - inversion E; subst. exact (Hm _ _ _ Em).
Qed.

Lemma respects_if {A} (b : bool) (m1 m2 : M I A) :
  respects R m1 -> respects R m2 -> respects R (if b then m1 else m2).
Proof. destruct b; auto. Qed.

End Frames.

Section BufferFrame.

Context {I : Type} `{BufferedInput I}.
Variable g : globals.
Variable VALID_CIPHER : Z.
Variable toString : Z -> outcome jstring.

Lemma same_buffer_trans (st1 st2 st3 : reader I) :
  same_buffer st1 st2 -> same_buffer st2 st3 -> same_buffer st1 st3.
Proof. unfold same_buffer. congruence. Qed.

Lemma same_buffer_length_trans (st1 st2 st3 : reader I) :
  same_buffer_length st1 st2 -> same_buffer_length st2 st3 ->
  same_buffer_length st1 st3.
Proof. unfold same_buffer_length. congruence. Qed.

Lemma same_buffer_set_result (s : option jstring) :
  respects same_buffer (@set_result I s).
Proof. intros st r st' E. inversion E. reflexivity. Qed.

Ltac buffer_kept :=
  repeat first
    [ apply (respects_bind same_buffer same_buffer_trans)
    | apply (respects_if same_buffer)
    | apply (respects_on_in same_buffer (fun _ _ => eq_refl))
    | apply (respects_ret same_buffer (fun _ => eq_refl))
    | apply (respects_throw same_buffer (fun _ => eq_refl))
    | apply (respects_diverge same_buffer (fun _ => eq_refl))
    | apply same_buffer_set_result
    | match goal with |- forall _, respects _ _ => intro end ].

(** The loop of the CESU-8 branch keeps the length of the caller's
    buffer; it stores into it only when it is shared. *)
Lemma read_chars_buffer_length (shared : bool) (n : nat) :
  forall k chars (st : reader I) r st',
    (shared = true -> length chars = length (rd_buffer st)) ->
    read_chars shared n k chars st = (r, st') ->
    same_buffer_length st st' /\ (shared = false -> same_buffer st st').
Proof.
  induction n as [|n IH]; intros k chars st r st' Hsh E; cbn [read_chars] in E.
  - inversion E; subst. split; reflexivity.
  - unfold bind at 1 in E. unfold on_in at 1 in E.
    destruct (readUTFChar (rd_in st)) as [[c|e|] i1];
      [|inversion E; subst; split; reflexivity..].
    destruct (c >? 0xFFFF); [inversion E; subst; split; reflexivity|].
    destruct shared.
    + unfold bind at 1 in E. unfold set_buffer at 1 in E.
      cbn [rd_in rd_buffer rd_result] in E.
      apply IH in E as [El _];
        [|cbn [rd_buffer]; intros _; reflexivity].
      split; [|discriminate]. unfold same_buffer_length in *.
      cbn [rd_buffer] in El. rewrite El. unfold arr_set.
      rewrite length_insert. now apply Hsh.
    + unfold bind at 1 in E. unfold ret at 1 in E.
      apply IH in E as [El Es]; [|discriminate].
      split; [exact El|intros _; exact (Es eq_refl)].
Qed.

Lemma read_cesu8_buffer_length :
  respects same_buffer_length (read_cesu8 (I:=I) VALID_CIPHER).
Proof.
  intros st r st' E. unfold read_cesu8 in E. unfold bind at 1 in E.
  unfold on_in at 1 in E.
  destruct (readCompactLong (rd_in st)) as [[len|e|] i2];
    [|inversion E; reflexivity..].
  destruct ((len <? -1) || (len >? Integer_MAX_VALUE));
    [inversion E; reflexivity|].
  destruct (len =? -1); [inversion E; reflexivity|].
  destruct (len =? 0); [inversion E; reflexivity|].
  unfold bind at 1 in E. unfold get_buffer at 1 in E. cbn [rd_buffer] in E.
  unfold bind at 1 in E.
  destruct (read_chars _ _ _ _ _) as [[chars|e|] st2] eqn:Eloop.
  - apply read_chars_buffer_length in Eloop as [El _].
    + unfold same_buffer_length in *. cbn [rd_buffer] in El. rewrite <- El.
      destruct (_ && _); inversion E; reflexivity.
    + cbn [rd_buffer]. intros ->. reflexivity.
  - apply read_chars_buffer_length in Eloop as [El _];
      [inversion E; subst; exact El|cbn [rd_buffer]; intros ->; reflexivity].
  - apply read_chars_buffer_length in Eloop as [El _];
      [inversion E; subst; exact El|cbn [rd_buffer]; intros ->; reflexivity].
Qed.

Lemma cipher_of_penta_buffer (penta : Z) :
  respects same_buffer (cipher_of_penta (I:=I) g toString penta).
Proof.
  unfold cipher_of_penta. destruct (infer_plen penta) as [plen|];
    [|buffer_kept]. cbv zeta.
  apply (respects_bind same_buffer same_buffer_trans); [|buffer_kept].
  apply (respects_if same_buffer); [|buffer_kept].
  apply (respects_bind same_buffer same_buffer_trans); [|buffer_kept].
  intros st r st' E. inversion E. reflexivity.
Qed.

(** Outside the CESU-8 branch the dispatch leaves the buffer alone. *)
Lemma read_penta_buffer (st st' : reader I) (r : outcome (Z + Z)) :
  read_penta VALID_CIPHER st = (r, st') ->
  (forall i1, readUnsignedByte (rd_in st) <> (Returned 0xFD, i1)) ->
  rd_buffer st' = rd_buffer st.
Proof.
  intros E Hno. unfold read_penta in E. unfold bind at 1 in E.
  unfold on_in at 1 in E.
  destruct (readUnsignedByte (rd_in st)) as [[i|e|] i1] eqn:E1;
    [|inversion E; reflexivity..].
  assert ((i =? 0xFD) = false) as Hi.
  { apply Z.eqb_neq. intros ->. exact (Hno i1 eq_refl). }
  repeat match type of E with
  | (if ?b then _ else _) _ = _ => destruct b eqn:?
  end;
  try congruence;
  match type of E with
  | ?m ?s = _ =>
      let Hm := fresh "Hm" in
      assert (respects same_buffer m) as Hm by buffer_kept;
      exact (Hm _ _ _ E)
  end.
Qed.

(** X16. [readSymbol] never changes the length of the caller's scratch
    buffer, and changes its contents only in the CESU-8 branch: for any
    first byte other than [0xFD], and when the first read fails, the buffer
    is left exactly as it was. *)
Theorem readSymbol_buffer_frame (st st' : reader I) (r : outcome Z) :
  readSymbol g VALID_CIPHER toString st = (r, st') ->
  length (rd_buffer st') = length (rd_buffer st) /\
  (rd_buffer st' = rd_buffer st \/
   exists i1, readUnsignedByte (rd_in st) = (Returned 0xFD, i1)).
Proof.
  intros E.
  destruct (readUnsignedByte (rd_in st)) as [[i|e|] i1] eqn:E1.
  1: destruct (Z.eq_dec i 0xFD) as [->|Hi].
  1: { split; [|right; eexists; reflexivity].
       rewrite (readSymbol_is_cesu8 g VALID_CIPHER toString st i1 E1) in E.
       exact (read_cesu8_buffer_length _ _ _ E). }
  all: assert (rd_buffer st' = rd_buffer st) as K;
    [|split; [now rewrite K|now left]].
  all: unfold readSymbol in E; unfold bind at 1 in E;
    destruct (read_penta VALID_CIPHER st) as [[x|e0|] st1] eqn:Ep;
    (assert (rd_buffer st1 = rd_buffer st) as K1
       by (apply (read_penta_buffer _ _ _ Ep); intros i2; rewrite E1;
           congruence));
    rewrite <- K1;
    [destruct x as [v|penta];
       [inversion E; reflexivity|exact (cipher_of_penta_buffer penta _ _ _ E)]
    |inversion E; reflexivity
    |inversion E; reflexivity].
Qed.

End BufferFrame.

(** ** What [readSymbol] returns *)

Section ReturnKinds.

Context {I : Type} `{BufferedInput I}.
Variable VALID_CIPHER : Z.
Variable toString : Z -> outcome jstring.

(** A non-zero return of the CESU-8 branch is the announced length, which
    fits the buffer and passes the [VALID_CIPHER] test. *)
Lemma read_cesu8_count (st st' : reader I) (v : Z) :
  read_cesu8 VALID_CIPHER st = (Returned v, st') -> v <> 0 ->
  1 <= v <= Integer_MAX_VALUE /\ v <= Z.of_nat (length (rd_buffer st)) /\
  Z.land v VALID_CIPHER = 0.
Proof.
  intros E Hv. unfold read_cesu8 in E. unfold bind at 1 in E.
  unfold on_in at 1 in E.
  destruct (readCompactLong (rd_in st)) as [[len|e|] i2]; try discriminate E.
  destruct ((len <? -1) || (len >? Integer_MAX_VALUE)) eqn:Hbad;
    [discriminate E|].
  destruct (len =? -1) eqn:Hm1; [inversion E; subst; contradiction|].
  destruct (len =? 0) eqn:H0; [inversion E; subst; contradiction|].
  unfold bind at 1 in E. unfold get_buffer at 1 in E. cbn [rd_buffer] in E.
  unfold bind at 1 in E.
  destruct (read_chars _ _ _ _ _) as [[chars|e|] st2]; try discriminate E.
  unfold Integer_MAX_VALUE in *.
  destruct (len <=? Z.of_nat (length (rd_buffer st))) eqn:Hfit;
    [|inversion E; subst; contradiction].
  destruct (Z.land len VALID_CIPHER =? 0) eqn:Hland;
    [|inversion E; subst; contradiction].
  cbn [andb] in E. unfold ret in E.
  rewrite to_jInt_id in E by (unfold is_jInt; pow2; lia).
  inversion E; subst. lia.
Qed.

(** A non-zero return of the dispatch comes from the CESU-8 branch. *)
Lemma read_penta_count (st st' : reader I) (i : Z) (i1 : I) (v : Z) :
  readUnsignedByte (rd_in st) = (Returned i, i1) ->
  read_penta VALID_CIPHER st = (Returned (inl v), st') -> v <> 0 ->
  i = 0xFD /\
  read_cesu8 VALID_CIPHER (Reader i1 (rd_buffer st) (rd_result st))
    = (Returned v, st').
Proof.
  intros E1 E Hv. rewrite (read_penta_dispatch VALID_CIPHER st i i1 E1) in E.
  cbv beta in E.
  repeat match type of E with
  | (if ?b then _ else _) _ = _ => destruct b eqn:?
  end; try discriminate E.
  - unfold bind, on_in in E. cbn [rd_in] in E.
    destruct (readUnsignedByte i1) as [[b|e|] i2]; discriminate E.
  - unfold bind, on_in in E. cbn [rd_in] in E.
    destruct (readUnsignedByte i1) as [[b|e|] i2]; try discriminate E.
    cbn [rd_in] in E.
    destruct (readUnsignedShort i2) as [[s|e|] i3]; discriminate E.
  - unfold bind, on_in in E. cbn [rd_in] in E.
    destruct (readUnsignedShort i1) as [[s|e|] i2]; discriminate E.
  - unfold bind, on_in in E. cbn [rd_in] in E.
    destruct (readInt i1) as [[x|e|] i2]; discriminate E.
  - unfold bind, on_in, set_result, ret in E. cbn [rd_in] in E.
    destruct (readUTFString i1) as [[s|e|] i2]; inversion E; subst.
    contradiction.
  - split; [lia|]. unfold bind at 1 in E.
    destruct (read_cesu8 VALID_CIPHER _) as [[v0|e|] st2]; inversion E.
    reflexivity.
  - inversion E; subst. contradiction.
Qed.

(** A zero mask test over the top two bits leaves a value below
    [0x40000000]. *)
Lemma land_tag_mask v :
  0 <= v < 2 ^ 31 -> Z.land v 0xC0000000 = 0 -> v < 2 ^ 30.
Proof.
  intros Hv Hz.
  assert (Z.testbit v 30 = false) as Hbit.
  { pose proof (Z.land_spec v 0xC0000000 30) as Hs. rewrite Hz in Hs.
    rewrite Z.bits_0 in Hs. change (Z.testbit 0xC0000000 30) with true in Hs.
    rewrite andb_true_r in Hs. congruence. }
  rewrite Z.testbit_odd, Z.shiftr_div_pow2 in Hbit by lia.
  destruct (Z.lt_ge_cases v (2 ^ 30)) as [|Hge]; [assumption|exfalso].
  assert (v / 2 ^ 30 = 1) as Hq by divmod.
  rewrite Hq in Hbit. discriminate Hbit.
Qed.

(** X17. The two kinds of non-zero return values of [readSymbol].  After
    the first byte [0xFD] a non-zero value is a character count between 1
    and the size of the buffer that passes the [VALID_CIPHER] test (with
    the mask [0xC0000000] its tag is 0).  After any other first byte it is
    a cipher with a non-zero tag, and [decodeCipher] maps it back to the
    penta that was on the wire. *)
Theorem readSymbol_return_kinds (st st' : reader I) (i : Z) (i1 : I) (v : Z) :
  readUnsignedByte (rd_in st) = (Returned i, i1) ->
  readSymbol initialized VALID_CIPHER toString st = (Returned v, st') ->
  v <> 0 ->
  (i = 0xFD /\ 1 <= v <= Integer_MAX_VALUE /\
   v <= Z.of_nat (length (rd_buffer st)) /\ Z.land v VALID_CIPHER = 0 /\
   (VALID_CIPHER = 0xC0000000 -> tag v = 0)) \/
  (i <> 0xFD /\ tag v <> 0 /\
   exists penta,
     read_penta VALID_CIPHER st = (Returned (inr penta), st') /\
     decodeCipher initialized v = inr penta).
Proof.
  intros E1 E Hv. unfold readSymbol in E. unfold bind at 1 in E.
  destruct (read_penta VALID_CIPHER st) as [[[v0|penta]|e|] st1] eqn:Ep;
    try discriminate E.
  - inversion E; subst v0 st1. left.
    destruct (read_penta_count st st' i i1 v E1 Ep Hv) as [-> Ec].
    destruct (read_cesu8_count _ _ _ Ec Hv) as (Hr & Hfit & Hland).
    cbn [rd_buffer] in Hfit. repeat split; try lia.
    intros ->. unfold Integer_MAX_VALUE in Hr.
    pose proof (land_tag_mask v ltac:(pow2; lia) Hland) as Hlt.
    unfold tag, to_uInt. rewrite shiftr_30. divmod.
  - right.
    assert (i <> 0xFD) as Hi.
    { intros ->.
      rewrite (read_penta_dispatch VALID_CIPHER st _ i1 E1) in Ep.
      cbv beta in Ep. change (0xFD <? 0x80) with false in Ep.
      change (0xFD <? 0xC0) with false in Ep.
      change (0xFD <? 0xE0) with false in Ep.
      change (0xFD <? 0xF0) with false in Ep.
      change (0xFD <? 0xF8) with false in Ep.
      change (0xFD <? 0xFC) with false in Ep.
      change (0xFD =? 0xFC) with false in Ep.
      change (0xFD =? 0xFD) with true in Ep. cbv iota in Ep.
      unfold bind at 1 in Ep.
      destruct (read_cesu8 VALID_CIPHER _) as [[v0|e|] st2]; discriminate Ep. }
    split; [exact Hi|].
    assert (0 <= penta < 2 ^ 35) as Hp.
    { destruct (read_penta_tier VALID_CIPHER st st1 i i1 penta E1 Ep)
        as [[_ ?]|[_ ?]]; pow2; lia. }
    destruct (infer_plen_total penta Hp) as (L & HL & Hw).
    unfold cipher_of_penta in E. rewrite HL in E. cbv zeta in E.
    assert (v = encodePenta initialized penta L /\ st' = st1) as [-> ->].
    { unfold bind at 1 in E.
      destruct (encodePenta initialized penta L =? 0) eqn:Ez.
      - destruct (bind _ _ st1) as [[[]|e|] st2]; try discriminate E.
        inversion E; subst. lia.
      - inversion E. auto. }
    destruct (decodeCipher_encodePenta penta L Hw Hv) as [Hd _].
    split; [|exists penta; split; [reflexivity|exact Hd]].
    intros Ht. unfold decodeCipher in Hd.
    fold (tag (encodePenta initialized penta L)) in Hd. rewrite Ht in Hd.
    discriminate Hd.
Qed.

(** X18. The reader and the encoder agree.  If the wire delivers the penta
    that the loop of [encode] packs for a symbol, and [encode] gives that
    symbol a non-zero cipher, then [readSymbol] returns the same cipher,
    leaving buffer and result slot as the dispatch left them. *)
Theorem readSymbol_agrees_with_encode (st st' : reader I) (s : jstring)
    (penta plen : Z) :
  encode initialized (Some s) <> 0 ->
  encode_loop initialized s 0 0 = Some (penta, plen) ->
  read_penta VALID_CIPHER st = (Returned (inr penta), st') ->
  readSymbol initialized VALID_CIPHER toString st =
    (Returned (encode initialized (Some s)), st').
Proof.
  intros Hnz Hloop Ep.
  destruct (encode_nonzero_packed s Hnz) as [Hs Hle].
  rewrite (encode_loop_packed s Hs 0 0) in Hloop by (cbn; lia).
  rewrite Z.mul_0_l, !Z.add_0_l in Hloop.
  assert (penta = packed s /\ plen = packed_plen initialized s) as [-> ->]
    by (split; congruence).
  rewrite (encode_packed s Hs Hle) in *.
  pose proof (packed_width s Hs Hle) as Hw.
  unfold readSymbol. unfold bind at 1. rewrite Ep.
  unfold cipher_of_penta. rewrite (infer_plen_width _ _ Hw). cbv zeta.
  unfold bind. rewrite (proj2 (Z.eqb_neq _ 0) Hnz). reflexivity.
Qed.

End ReturnKinds.

(** ** Failures of the reader *)

Section Failures.

Context {I : Type} `{BufferedInput I}.
Variable g : globals.
Variable VALID_CIPHER : Z.
Variable toString : Z -> outcome jstring.

Lemma quiet_of_keeps {A} (m : M I A) : keeps_result m -> quiet_on_failure m.
Proof. intros Hm st r st' E _. exact (Hm _ _ _ E). Qed.

Lemma quiet_bind {A B} (m : M I A) (k : A -> M I B) :
  keeps_result m -> (forall a, quiet_on_failure (k a)) ->
  quiet_on_failure (bind m k).
Proof.
  intros Hm Hk st r st' E Hr. unfold bind in E.
  destruct (m st) as [[a|e|] st1] eqn:Em.
  - rewrite (Hk a _ _ _ E Hr). exact (Hm _ _ _ Em).
  - inversion E; subst. exact (Hm _ _ _ Em).
  - inversion E; subst. exact (Hm _ _ _ Em).
Qed.

Lemma quiet_if {A} (b : bool) (m1 m2 : M I A) :
  quiet_on_failure m1 -> quiet_on_failure m2 ->
  quiet_on_failure (if b then m1 else m2).
Proof. destruct b; auto. Qed.

(** [result[0] = s; return v;] does not fail. *)
Lemma quiet_set_result {A} (s : option jstring) (v : A) :
  quiet_on_failure (bind (set_result s) (fun _ => @ret I A v)).
Proof.
  intros st r st' E Hr. unfold bind, set_result, ret in E.
  inversion E; subst. exfalso. exact (Hr v eq_refl).
Qed.

Lemma quiet_then_ret {A B} (m : M I A) (f : A -> B) :
  quiet_on_failure m -> quiet_on_failure (bind m (fun a => ret (f a))).
Proof.
  intros Hm st r st' E Hr. unfold bind, ret in E.
  destruct (m st) as [[a|e|] st1] eqn:Em.
  - inversion E; subst. exfalso. exact (Hr (f a) eq_refl).
  - inversion E; subst. apply (Hm _ _ _ Em). discriminate.
  - inversion E; subst. apply (Hm _ _ _ Em). discriminate.
Qed.

Lemma quiet_read_cesu8 : quiet_on_failure (read_cesu8 (I:=I) VALID_CIPHER).
Proof.
  unfold read_cesu8. apply quiet_bind; [apply keeps_on_in|]. intros len.
  apply quiet_if; [apply quiet_of_keeps, keeps_throw|].
  apply quiet_if; [apply quiet_set_result|].
  apply quiet_if; [apply quiet_set_result|].
  apply quiet_bind; [apply keeps_get_buffer|]. intros buffer.
  apply quiet_bind; [apply keeps_read_chars|]. intros chars.
  apply quiet_if; [apply quiet_of_keeps, keeps_ret|apply quiet_set_result].
Qed.

Lemma quiet_read_penta : quiet_on_failure (read_penta (I:=I) VALID_CIPHER).
Proof.
  unfold read_penta. apply quiet_bind; [apply keeps_on_in|]. intros i.
  repeat apply quiet_if.
  - apply quiet_of_keeps, keeps_bind; [apply keeps_on_in|].
    intros; apply keeps_ret.
  - apply quiet_of_keeps, keeps_bind; [apply keeps_on_in|]. intros b.
    apply keeps_bind; [apply keeps_on_in|intros; apply keeps_ret].
  - apply quiet_of_keeps, keeps_throw.
  - apply quiet_of_keeps, keeps_bind; [apply keeps_on_in|].
    intros; apply keeps_ret.
  - apply quiet_of_keeps, keeps_bind; [apply keeps_on_in|].
    intros; apply keeps_ret.
  - apply quiet_of_keeps, keeps_throw.
  - apply quiet_bind; [apply keeps_on_in|]. intros s.
    apply quiet_set_result.
  - apply (quiet_then_ret _ (@inl Z Z)), quiet_read_cesu8.
  - apply quiet_of_keeps, keeps_ret.
  - apply quiet_set_result.
Qed.

Lemma quiet_cipher_of_penta (penta : Z) :
  quiet_on_failure (cipher_of_penta (I:=I) g toString penta).
Proof.
  unfold cipher_of_penta. destruct (infer_plen penta) as [plen|];
    [|apply quiet_of_keeps, keeps_diverge]. cbv zeta.
  intros st r st' E Hr. unfold bind at 1 in E.
  destruct (encodePenta g penta plen =? 0).
  - unfold bind at 1 in E. destruct (toString penta) as [s|e|].
    + unfold set_result, ret in E. inversion E; subst.
      exfalso. exact (Hr _ eq_refl).
    + inversion E. reflexivity.
    + inversion E. reflexivity.
  - unfold ret in E. inversion E; subst. exfalso. exact (Hr _ eq_refl).
Qed.

(** X19. No partial result on failure: when [readSymbol] throws (an error
    of its own, of the source or of [toString]) or does not return, slot 0
    of [result] holds what it held on entry. *)
Theorem readSymbol_failure_keeps_result (st st' : reader I) (r : outcome Z) :
  readSymbol g VALID_CIPHER toString st = (r, st') ->
  (forall v, r <> Returned v) ->
  rd_result st' = rd_result st.
Proof.
  intros E Hr. unfold readSymbol in E. unfold bind at 1 in E.
  destruct (read_penta VALID_CIPHER st) as [[x|e|] st1] eqn:Ep.
  - destruct x as [v|penta].
    + unfold ret in E. inversion E; subst. exfalso. exact (Hr v eq_refl).
    + destruct (read_penta_result _ _ _ _ Ep) as [Hx|K1]; [discriminate Hx|].
      rewrite <- K1. exact (quiet_cipher_of_penta penta _ _ _ E Hr).
  - inversion E; subst. apply (quiet_read_penta _ _ _ Ep). discriminate.
  - inversion E; subst. apply (quiet_read_penta _ _ _ Ep). discriminate.
Qed.

Lemma converges_bind {A B} (m : M I A) (k : A -> M I B) :
  converges m -> (forall a, converges (k a)) -> converges (bind m k).
Proof.
  intros Hm Hk st. unfold bind. specialize (Hm st).
  destruct (m st) as [[a|e|] st1]; cbn [fst] in *;
    [apply Hk|discriminate|contradiction].
Qed.

Lemma converges_if {A} (b : bool) (m1 m2 : M I A) :
  converges m1 -> converges m2 -> converges (if b then m1 else m2).
Proof. destruct b; auto. Qed.

Lemma converges_on_in {A} (op : I -> outcome A * I) :
  (forall i, fst (op i) <> Diverged) -> converges (on_in op).
Proof.
  intros Hop st. unfold on_in. specialize (Hop (rd_in st)).
  destruct (op (rd_in st)) as [r i']. exact Hop.
Qed.

Ltac settle :=
  repeat first
    [ apply converges_bind
    | apply converges_if
    | apply converges_on_in; assumption
    | match goal with |- forall _, converges _ => intro end
    | match goal with |- converges _ => intros ?; discriminate end ].

Lemma converges_read_chars (shared : bool) (n : nat) :
  (forall i, fst (readUTFChar i) <> Diverged) ->
  forall k chars, converges (read_chars shared n k chars).
Proof.
  intros Hc. induction n as [|n IH]; intros k chars; cbn [read_chars].
  - intros st; discriminate.
  - apply converges_bind; [apply converges_on_in; exact Hc|]. intros c.
    apply converges_if; [intros st; discriminate|].
    apply converges_bind; [destruct shared; intros st; discriminate|].
    intros _. apply IH.
Qed.

Lemma converges_read_penta :
  source_converges -> converges (read_penta (I:=I) VALID_CIPHER).
Proof.
  intros (H8 & H16 & H32 & Hcl & Hch & Hstr). unfold read_penta.
  apply converges_bind; [apply converges_on_in; exact H8|]. intros i.
  repeat apply converges_if; settle.
  unfold read_cesu8. settle. apply converges_read_chars. exact Hch.
Qed.

Lemma read_penta_first (st st' : reader I) (r : Z + Z) :
  read_penta VALID_CIPHER st = (Returned r, st') ->
  exists i i1, readUnsignedByte (rd_in st) = (Returned i, i1).
Proof.
  unfold read_penta. unfold bind at 1. unfold on_in at 1.
  destruct (readUnsignedByte (rd_in st)) as [[i|e|] i1]; intros E;
    [eauto|discriminate E..].
Qed.

(** X20. [readSymbol] always returns or throws when the source and
    [toString] do: the width loop terminates on every penta that a tier can
    deliver. *)
Theorem readSymbol_terminates (st : reader I) :
  source_converges ->
  (forall penta, 0 <= penta < 2 ^ 35 -> toString penta <> Diverged) ->
  fst (readSymbol g VALID_CIPHER toString st) <> Diverged.
Proof.
  intros Hsrc Hts. unfold readSymbol. unfold bind at 1.
  pose proof (converges_read_penta Hsrc st) as Hp.
  destruct (read_penta VALID_CIPHER st) as [[[v|penta]|e|] st1] eqn:Ep;
    cbn [fst] in Hp; [discriminate|..|discriminate|contradiction].
  destruct (read_penta_first _ _ _ Ep) as (i & i1 & E1).
  assert (0 <= penta < 2 ^ 35) as Hr.
  { destruct (read_penta_tier VALID_CIPHER st st1 i i1 penta E1 Ep)
      as [[_ ?]|[_ ?]]; pow2; lia. }
  destruct (infer_plen_total penta Hr) as (L & HL & _).
  unfold cipher_of_penta. rewrite HL. cbv zeta. unfold bind at 1.
  destruct (encodePenta g penta L =? 0); [|discriminate].
  unfold bind at 1. specialize (Hts penta Hr).
  destruct (toString penta) as [s|e|]; [discriminate|discriminate|contradiction].
Qed.

End Failures.

(** ** The further properties on concrete inputs *)

Lemma encode_nonzero_iff_witness :
  Forall (fun c => eligible c = true) (jstr "/AAAAAA") /\
  packed_plen initialized (jstr "/AAAAAA") = 35 /\
  encode initialized (Some (jstr "/AAAAAA")) <> 0.
Proof.
  assert (Forall (fun c => eligible c = true) (jstr "/AAAAAA")) as Hs
    by (repeat constructor).
  assert (packed_plen initialized (jstr "/AAAAAA") = 35) as Hp
    by (vm_compute; reflexivity).
  split; [exact Hs|]. split; [exact Hp|].
  apply (proj2 (encode_nonzero_iff (jstr "/AAAAAA"))).
  split; [exact Hs|]. right. split; [exact Hp|].
  eexists. left. reflexivity.
Defined.

Lemma decodeCipher_no_internal_error_witness :
  tag 0x4000248D <> 0 /\
  exists penta, decodeCipher initialized 0x4000248D = inr penta.
Proof.
  assert (tag 0x4000248D <> 0) as Ht by (vm_compute; congruence).
  split; [exact Ht|].
  exact (proj2 (proj2 (decodeCipher_no_internal_error initialized 0x4000248D))
           Ht).
Defined.

Lemma penta_assignment_order_witness :
  chr "A" <= chr "M" <= chr "Z" /\ PENTA (chr "M") = chr "M" - chr "A" + 1.
Proof.
  assert (chr "A" <= chr "M" <= chr "Z") as Hc by (vm_compute; split; congruence).
  split; [exact Hc|].
  exact (proj1 (proj1 penta_assignment_order (chr "M") Hc)).
Defined.

Lemma penta_prefix_free_witness :
  eligible (chr "a") = true /\ PLEN (chr "a") = 10 /\
  (PENTA (chr "a") / 32 = 30 \/ PENTA (chr "a") / 32 = 31).
Proof.
  assert (eligible (chr "a") = true) as He by reflexivity.
  assert (PLEN (chr "a") = 10) as Hl by (vm_compute; reflexivity).
  split; [exact He|]. split; [exact Hl|].
  exact (proj1 (proj2 penta_prefix_free) (chr "a") He Hl).
Defined.

Lemma readSymbol_reserved_witness :
  readUnsignedByte (rd_in (Reader [xc5; x00] [] None)) = (Returned 0xC5, [x00]) /\
  (0xC0 <= 0xC5 < 0xE0 \/ 0xF8 <= 0xC5 < 0xFC) /\
  run [xc5; x00] [] None =
    (Thrown (IOException "Reserved bit sequence."), Reader [x00] [] None).
Proof.
  assert (readUnsignedByte (rd_in (Reader [xc5; x00] [] None))
          = (Returned 0xC5, [x00])) as E1 by reflexivity.
  assert (0xC0 <= 0xC5 < 0xE0 \/ 0xF8 <= 0xC5 < 0xFC) as Hi by lia.
  split; [exact E1|]. split; [exact Hi|].
  exact (readSymbol_reserved initialized VALID_CIPHER_java
           (toString initialized) _ _ _ E1 Hi).
Defined.

Lemma readSymbol_void_and_utf8_witness :
  readUnsignedByte (rd_in (Reader [xff; x00] [] (Some (jstr "X"))))
    = (Returned 0xFF, [x00]) /\
  run [xff; x00] [] (Some (jstr "X")) = (Returned 0, Reader [x00] [] None).
Proof.
  assert (readUnsignedByte (rd_in (Reader [xff; x00] [] (Some (jstr "X"))))
          = (Returned 0xFF, [x00])) as E1 by reflexivity.
  split; [exact E1|].
  exact (proj1 (readSymbol_void_and_utf8 initialized VALID_CIPHER_java
                  (toString initialized) _ _) E1).
Defined.

Lemma read_penta_values_witness :
  readUnsignedByte (rd_in (Reader [xa4; x8d; x01; x02] [] None))
    = (Returned 0xA4, [x8d; x01; x02]) /\
  0x80 <= 0xA4 < 0xC0 /\
  readUnsignedByte [x8d; x01; x02] = (Returned 0x8D, [x01; x02]) /\
  readUnsignedShort [x01; x02] = (Returned 0x0102, []) /\
  read_penta VALID_CIPHER_java (Reader [xa4; x8d; x01; x02] [] None) =
    (Returned (inr 0x248D0102), Reader [] [] None).
Proof.
  assert (readUnsignedByte (rd_in (Reader [xa4; x8d; x01; x02] [] None))
          = (Returned 0xA4, [x8d; x01; x02])) as E1 by reflexivity.
  assert (0x80 <= 0xA4 < 0xC0) as Hi by lia.
  assert (readUnsignedByte [x8d; x01; x02] = (Returned 0x8D, [x01; x02]))
    as Eb by reflexivity.
  assert (readUnsignedShort [x01; x02] = (Returned 0x0102, [])) as Es
    by reflexivity.
  split; [exact E1|]. split; [exact Hi|]. split; [exact Eb|].
  split; [exact Es|].
  exact (proj1 (proj2 (read_penta_values VALID_CIPHER_java _ _ _ E1))
           Hi _ _ _ _ Eb Es).
Defined.

Lemma readSymbol_narrow_penta_witness :
  read_penta VALID_CIPHER_java (Reader [x24; x8d] [] None)
    = (Returned (inr 0x248D), Reader [] [] None) /\
  0 <= 0x248D < 2 ^ 30 /\
  readSymbol zeroed VALID_CIPHER_java (toString zeroed)
    (Reader [x24; x8d] [] None) = (Returned 0x4000248D, Reader [] [] None).
Proof.
  assert (read_penta VALID_CIPHER_java (Reader [x24; x8d] [] None)
          = (Returned (inr 0x248D), Reader [] [] None)) as E
    by (vm_compute; reflexivity).
  assert (0 <= 0x248D < 2 ^ 30) as Hp by (vm_compute; split; congruence).
  split; [exact E|]. split; [exact Hp|].
  exact (readSymbol_narrow_penta zeroed VALID_CIPHER_java (toString zeroed)
           _ _ _ E Hp).
Defined.

Lemma readSymbol_cesu8_string_witness :
  readUnsignedByte (rd_in (Reader [xfd; x02; x27; x41] [7; 8; 9] None))
    = (Returned 0xFD, [x02; x27; x41]) /\
  readCompactLong [x02; x27; x41] = (Returned 2, [x27; x41]) /\
  reads_chars [x27; x41] [0x27; 0x41] [] /\
  run [xfd; x02; x27; x41] [7; 8; 9] None =
    (Returned 2, Reader [] [0x27; 0x41; 9] None).
Proof.
  assert (readUnsignedByte (rd_in (Reader [xfd; x02; x27; x41] [7; 8; 9] None))
          = (Returned 0xFD, [x02; x27; x41])) as E1 by reflexivity.
  assert (readCompactLong [x02; x27; x41] = (Returned 2, [x27; x41])) as E2
    by reflexivity.
  assert (reads_chars [x27; x41] [0x27; 0x41] []) as Hrd.
  { apply reads_cons with [x41]; [reflexivity|].
    apply reads_cons with []; [reflexivity|]. apply reads_nil. }
  split; [exact E1|]. split; [exact E2|]. split; [exact Hrd|].
  exact (readSymbol_cesu8_string initialized VALID_CIPHER_java
           (toString initialized) _ _ _ _ _ _ E1 E2 Hrd eq_refl
           ltac:(vm_compute; split; congruence)
           ltac:(repeat constructor; vm_compute; congruence)).
Defined.

Lemma readSymbol_cesu8_beyond_BMP_witness :
  @readUnsignedByte _ ScriptInput
    (rd_in (Reader [0xFD; 2; 0x41; 0x10000] [7; 8; 9] None))
    = (Returned 0xFD, [2; 0x41; 0x10000]) /\
  @readCompactLong _ ScriptInput [2; 0x41; 0x10000]
    = (Returned 2, [0x41; 0x10000]) /\
  @reads_chars _ ScriptInput [0x41; 0x10000] [0x41] [0x10000] /\
  @readUTFChar _ ScriptInput [0x10000] = (Returned 0x10000, []) /\
  @readSymbol _ ScriptInput initialized VALID_CIPHER_java
    (toString initialized) (Reader [0xFD; 2; 0x41; 0x10000] [7; 8; 9] None) =
    (Thrown (UTFDataFormatException "Code point is beyond BMP."),
     Reader [] [0x41; 8; 9] None).
Proof.
  assert (@readUnsignedByte _ ScriptInput
            (rd_in (Reader [0xFD; 2; 0x41; 0x10000] [7; 8; 9] None))
          = (Returned 0xFD, [2; 0x41; 0x10000])) as E1 by reflexivity.
  assert (@readCompactLong _ ScriptInput [2; 0x41; 0x10000]
          = (Returned 2, [0x41; 0x10000])) as E2 by reflexivity.
  assert (@reads_chars _ ScriptInput [0x41; 0x10000] [0x41] [0x10000]) as Hrd.
  { apply (@reads_cons _ ScriptInput) with [0x10000]; [reflexivity|].
    apply reads_nil. }
  assert (@readUTFChar _ ScriptInput [0x10000] = (Returned 0x10000, []))
    as Ec by reflexivity.
  split; [exact E1|]. split; [exact E2|]. split; [exact Hrd|].
  split; [exact Ec|].
  exact (@readSymbol_cesu8_beyond_BMP _ ScriptInput initialized
           VALID_CIPHER_java (toString initialized) _ _ _ _ _ _ _ _
           E1 E2 Hrd ltac:(repeat constructor; vm_compute; congruence)
           Ec ltac:(reflexivity) ltac:(vm_compute; split; congruence)).
Defined.

Lemma readSymbol_buffer_frame_witness :
  run [xfd; x02; x27; x41] [7; 8; 9] None
    = (Returned 2, Reader [] [0x27; 0x41; 9] None) /\
  length (rd_buffer (Reader ([] : list byte) [0x27; 0x41; 9] None))
    = length (rd_buffer (Reader [xfd; x02; x27; x41] [7; 8; 9] None)).
Proof.
  assert (run [xfd; x02; x27; x41] [7; 8; 9] None
          = (Returned 2, Reader [] [0x27; 0x41; 9] None)) as E
    by (vm_compute; reflexivity).
  split; [exact E|].
  exact (proj1 (readSymbol_buffer_frame initialized VALID_CIPHER_java
                  (toString initialized) _ _ _ E)).
Defined.

Lemma readSymbol_return_kinds_witness :
  readUnsignedByte (rd_in (Reader [xf7; x00; x00; x00; x05] [] None))
    = (Returned 0xF7, [x00; x00; x00; x05]) /\
  run [xf7; x00; x00; x00; x05] [] None
    = (Returned (-0x7FFFFFFB), Reader [] [] None) /\
  - 0x7FFFFFFB <> 0 /\
  decodeCipher initialized (-0x7FFFFFFB) = inr 0x700000005.
Proof.
  assert (readUnsignedByte (rd_in (Reader [xf7; x00; x00; x00; x05] [] None))
          = (Returned 0xF7, [x00; x00; x00; x05])) as E1 by reflexivity.
  assert (run [xf7; x00; x00; x00; x05] [] None
          = (Returned (-0x7FFFFFFB), Reader [] [] None)) as E
    by (vm_compute; reflexivity).
  assert (- 0x7FFFFFFB <> 0) as Hv by lia.
  split; [exact E1|]. split; [exact E|]. split; [exact Hv|].
  destruct (readSymbol_return_kinds VALID_CIPHER_java (toString initialized)
              _ _ _ _ _ E1 E Hv) as [(Hi & _)|(_ & _ & penta & Ep & Hd)].
  - vm_compute in Hi. discriminate Hi.
  - assert (penta = 0x700000005) as <-; [|exact Hd].
    assert (read_penta VALID_CIPHER_java
              (Reader [xf7; x00; x00; x00; x05] [] None)
            = (Returned (inr 0x700000005), Reader [] [] None)) as Ep'
      by (vm_compute; reflexivity).
    rewrite Ep' in Ep. congruence.
Defined.

Lemma readSymbol_agrees_with_encode_witness :
  encode initialized (Some (jstr "IBM")) <> 0 /\
  encode_loop initialized (jstr "IBM") 0 0 = Some (0x244D, 15) /\
  read_penta VALID_CIPHER_java (Reader [x24; x4d] [] None)
    = (Returned (inr 0x244D), Reader [] [] None) /\
  run [x24; x4d] [] None =
    (Returned (encode initialized (Some (jstr "IBM"))), Reader [] [] None).
Proof.
  assert (encode initialized (Some (jstr "IBM")) <> 0) as Hnz
    by (vm_compute; congruence).
  assert (encode_loop initialized (jstr "IBM") 0 0 = Some (0x244D, 15))
    as Hloop by (vm_compute; reflexivity).
  assert (read_penta VALID_CIPHER_java (Reader [x24; x4d] [] None)
          = (Returned (inr 0x244D), Reader [] [] None)) as Ep
    by (vm_compute; reflexivity).
  split; [exact Hnz|]. split; [exact Hloop|]. split; [exact Ep|].
  exact (readSymbol_agrees_with_encode VALID_CIPHER_java
           (toString initialized) _ _ _ _ _ Hnz Hloop Ep).
Defined.

Lemma readSymbol_failure_keeps_result_witness :
  run [xfd; x7e] [] (Some (jstr "X"))
    = (Thrown (IOException "Illegal length."), Reader [] [] (Some (jstr "X"))) /\
  rd_result (Reader ([] : list byte) [] (Some (jstr "X")))
    = rd_result (Reader [xfd; x7e] [] (Some (jstr "X"))).
Proof.
  assert (run [xfd; x7e] [] (Some (jstr "X"))
          = (Thrown (IOException "Illegal length."),
             Reader [] [] (Some (jstr "X")))) as E
    by (vm_compute; reflexivity).
  split; [exact E|].
  exact (readSymbol_failure_keeps_result initialized VALID_CIPHER_java
           (toString initialized) _ _ _ E ltac:(discriminate)).
Defined.

Lemma ByteInput_converges : @source_converges (list byte) ByteInput.
Proof.
  unfold source_converges. repeat split.
  - intros [|b r]; discriminate.
  - intros [|b1 [|b0 r]]; discriminate.
  - intros [|b3 [|b2 [|b1 [|b0 r]]]]; discriminate.
  - intros [|b r]; [discriminate|]. cbn [readCompactLong ByteInput].
    unfold bytes_compact1. destruct (u8 b <? 0x80); discriminate.
  - intros [|b r]; [discriminate|]. cbn [readUTFChar ByteInput].
    unfold bytes_utf1. destruct (u8 b <? 0x80); discriminate.
  - intros bs. discriminate.
Qed.

Lemma toString_converges penta :
  0 <= penta < 2 ^ 35 -> toString initialized penta <> Diverged.
Proof.
  intros Hp. unfold toString.
  destruct (infer_plen_total penta Hp) as (L & -> & _).
  destruct (penta_to_string initialized penta L); discriminate.
Qed.

Lemma readSymbol_terminates_witness :
  @source_converges (list byte) ByteInput /\
  fst (run [xf0; x42; x10; x84; x21] [] None) <> Diverged.
Proof.
  split; [exact ByteInput_converges|].
  exact (readSymbol_terminates initialized VALID_CIPHER_java
           (toString initialized) _ ByteInput_converges toString_converges).
Defined.

(** * The listener registry *)

Lemma already_added_spec listener (m : gmap Z Z) :
  already_added listener m = true <-> exists k, m !! k = Some listener.
Proof.
  unfold already_added. rewrite existsb_exists. split.
  - intros ([k l] & Hin & Heq). cbn [snd] in Heq.
    apply list_elem_of_In, elem_of_map_to_list in Hin.
    exists k. assert (l = listener) as <- by lia. exact Hin.
  - intros [k Hk]. exists (k, listener). split.
    + apply list_elem_of_In, elem_of_map_to_list. exact Hk.
    + cbn [snd]. lia.
Qed.

Lemma already_added_false listener (m : gmap Z Z) :
  already_added listener m = false -> forall k, m !! k <> Some listener.
Proof.
  intros Hf k Hk. assert (already_added listener m = true) as Ht
    by (apply already_added_spec; eauto). congruence.
Qed.

Section Registry.

Variable QueryInterface : Z -> option Z.

(** What a successful registration does. *)
Lemma Advise_registers (sink : Z) (s s' : subscription) (cookie : Z) :
  Advise QueryInterface (Some sink) true s = (S_OK, Some cookie, s') ->
  cookie <> 0 ->
  exists listener,
    QueryInterface sink = Some listener /\
    already_added listener (m_listeners s) = false /\
    cookie = m_listener_next_id s /\
    m_listeners s' = <[cookie := listener]> (m_listeners s) /\
    m_listener_next_id s' = to_DWORD (cookie + 1) /\
    m_listenerMethodId s' = m_listenerMethodId s /\
    released s' = released s.
Proof.
  unfold Advise. intros E Hc.
  destruct (QueryInterface sink) as [listener|]; [|discriminate E].
  destruct (already_added listener (m_listeners s)) eqn:Hdup.
  { inversion E; subst. contradiction. }
  destruct (m_listenerMethodId s =? 0); [discriminate E|].
  inversion E; subst. exists listener.
  split; [reflexivity|]. split; [exact Hdup|]. repeat split; reflexivity.
Qed.

Lemma new_subscription_ok methodId : registry_ok (new_subscription methodId).
Proof.
  unfold registry_ok, new_subscription.
  cbn [m_listeners m_listener_next_id]. split; [pow2; lia|].
  split; intros *; rewrite lookup_empty; discriminate.
Qed.

(** [Advise] keeps the registry in order as long as the counter has room,
    and moves the counter by at most one. *)
Lemma Advise_ok (pUnkSink : option Z) (out : bool) (s : subscription) :
  registry_ok s -> m_listener_next_id s < 2 ^ 32 - 1 ->
  registry_ok (snd (Advise QueryInterface pUnkSink out s)) /\
  m_listener_next_id (snd (Advise QueryInterface pUnkSink out s))
    <= m_listener_next_id s + 1.
Proof.
  intros Hok Hroom. unfold Advise.
  destruct pUnkSink as [sink|]; [|split; [exact Hok|cbn [snd]; lia]].
  destruct out; [|split; [exact Hok|cbn [snd]; lia]].
  destruct (QueryInterface sink) as [listener|];
    [|split; [exact Hok|cbn [snd]; lia]].
  destruct (already_added listener (m_listeners s)) eqn:Hdup;
    [split; [exact Hok|cbn [snd]; lia]|].
  destruct (m_listenerMethodId s =? 0); [split; [exact Hok|cbn [snd]; lia]|].
  cbn [snd]. destruct Hok as (Hn & Hkeys & Hinj).
  pose proof (already_added_false _ _ Hdup) as Hnew.
  unfold registry_ok. cbn [m_listeners m_listener_next_id].
  assert (to_DWORD (m_listener_next_id s + 1) = m_listener_next_id s + 1)
    as -> by (unfold to_DWORD; apply Z.mod_small; lia).
  split; [|lia]. split; [lia|]. split.
  - intros k l Hk. apply lookup_insert_Some in Hk as [[<- _]|[_ Hk]]; [lia|].
    specialize (Hkeys k l Hk). lia.
  - intros k1 k2 l H1 H2.
    apply lookup_insert_Some in H1 as [[<- <-]|[N1 H1]];
      apply lookup_insert_Some in H2 as [[<- E2]|[N2 H2]];
      try reflexivity.
    + exfalso. exact (Hnew k2 H2).
    + subst l. exfalso. exact (Hnew k1 H1).
    + exact (Hinj k1 k2 l H1 H2).
Qed.

Lemma Unadvise_ok (dwCookie : Z) (s : subscription) :
  registry_ok s ->
  registry_ok (snd (Unadvise dwCookie s)) /\
  m_listener_next_id (snd (Unadvise dwCookie s)) = m_listener_next_id s.
Proof.
  intros Hok. pose proof Hok as (Hn & Hkeys & Hinj). unfold Unadvise.
  destruct (m_listeners s !! dwCookie) as [l|]; [|split; [exact Hok|reflexivity]].
  cbn [snd]. split; [|reflexivity].
  unfold registry_ok. cbn [m_listeners m_listener_next_id].
  split; [exact Hn|]. split.
  - intros k l0 Hk. apply lookup_delete_Some in Hk as [_ Hk]. eauto.
  - intros k1 k2 l0 H1 H2. apply lookup_delete_Some in H1 as [_ H1].
    apply lookup_delete_Some in H2 as [_ H2]. eauto.
Qed.

Lemma do_calls_ok (cs : list registry_call) :
  forall s,
    registry_ok s ->
    m_listener_next_id s + Z.of_nat (length cs) < 2 ^ 32 ->
    registry_ok (do_calls QueryInterface cs s).
Proof.
  induction cs as [|c cs IH]; intros s Hok Hroom; [exact Hok|].
  cbn [length] in Hroom. unfold do_calls. cbn [fold_left].
  apply IH; destruct c as [pUnkSink out|dwCookie]; cbn [do_call].
  - apply Advise_ok; [exact Hok|lia].
  - apply Unadvise_ok; exact Hok.
  - pose proof (Advise_ok pUnkSink out s Hok ltac:(lia)) as [_ Hle]. lia.
  - pose proof (Unadvise_ok dwCookie s Hok) as [_ Heq]. lia.
Qed.

(** X21. The registry stays in order through any sequence of [Advise] and
    [Unadvise] calls on a new subscription, as long as the cookie counter
    cannot wrap (fewer than [2^32 - 1] calls): every cookie in use is
    non-zero and below the counter, and no listener is registered under two
    cookies. *)
Theorem registry_always_ok (methodId : Z) (cs : list registry_call) :
  Z.of_nat (length cs) < 2 ^ 32 - 1 ->
  registry_ok (do_calls QueryInterface cs (new_subscription methodId)).
Proof.
  intros Hlen. apply do_calls_ok; [apply new_subscription_ok|].
  cbn [new_subscription m_listener_next_id]. lia.
Qed.

(** X22. [Unadvise] on a registry in order: for a cookie that is not in use
    it returns [E_POINTER] and changes nothing, and cookie 0 is never in
    use; for a cookie in use it returns [S_OK], removes that entry only and
    calls [Release] on its listener only. *)
Theorem Unadvise_cases (dwCookie : Z) (s : subscription) :
  registry_ok s ->
  Unadvise 0 s = (E_POINTER, s) /\
  (m_listeners s !! dwCookie = None -> Unadvise dwCookie s = (E_POINTER, s)) /\
  (forall listener, m_listeners s !! dwCookie = Some listener ->
     fst (Unadvise dwCookie s) = S_OK /\
     released (snd (Unadvise dwCookie s)) = listener :: released s /\
     m_listeners (snd (Unadvise dwCookie s)) !! dwCookie = None /\
     forall k, k <> dwCookie ->
       m_listeners (snd (Unadvise dwCookie s)) !! k = m_listeners s !! k).
Proof.
  intros (Hn & Hkeys & Hinj). split; [|split].
  - unfold Unadvise. destruct (m_listeners s !! 0) as [l|] eqn:E0;
      [|reflexivity]. specialize (Hkeys 0 l E0). lia.
  - intros Hnone. unfold Unadvise. rewrite Hnone. reflexivity.
  - intros listener Hk. unfold Unadvise. rewrite Hk.
    cbn [fst snd released m_listeners].
    split; [reflexivity|]. split; [reflexivity|].
    split; [apply lookup_delete_eq|].
    intros k Hne. apply lookup_delete_ne. congruence.
Qed.

(** X23. Registration and removal are inverse: after a successful [Advise]
    that hands out a non-zero cookie on a registry in order, [Unadvise] of
    that cookie succeeds, restores the map of listeners, and calls
    [Release] on exactly the listener the sink had handed out. *)
Theorem Unadvise_Advise (sink : Z) (s s' : subscription) (cookie : Z) :
  registry_ok s ->
  Advise QueryInterface (Some sink) true s = (S_OK, Some cookie, s') ->
  cookie <> 0 ->
  exists listener,
    QueryInterface sink = Some listener /\
    fst (Unadvise cookie s') = S_OK /\
    m_listeners (snd (Unadvise cookie s')) = m_listeners s /\
    released (snd (Unadvise cookie s')) = listener :: released s.
Proof.
  intros (Hn & Hkeys & _) E Hc.
  destruct (Advise_registers sink s s' cookie E Hc)
    as (listener & Hq & _ & Hck & Hm & _ & _ & Hrel).
  exists listener. split; [exact Hq|].
  unfold Unadvise. rewrite Hm, lookup_insert_eq.
  cbn [fst snd m_listeners released].
  split; [reflexivity|]. split; [|now rewrite Hrel].
  apply delete_insert_id.
  destruct (m_listeners s !! cookie) as [l|] eqn:Ek; [|reflexivity].
  specialize (Hkeys cookie l Ek). lia.
Qed.

(** X24. Registering a listener that is already registered is a no-op that
    reports success with cookie 0: right after a successful [Advise], a
    second [Advise] of the same sink returns [S_OK], leaves 0 in
    [*pdwCookie] and changes nothing. *)
Theorem Advise_twice (sink : Z) (s s' : subscription) (cookie : Z) :
  Advise QueryInterface (Some sink) true s = (S_OK, Some cookie, s') ->
  Advise QueryInterface (Some sink) true s' = (S_OK, Some 0, s').
Proof.
  intros E. unfold Advise in *.
  destruct (QueryInterface sink) as [listener|]; [|discriminate E].
  destruct (already_added listener (m_listeners s)) eqn:Hdup.
  { inversion E; subst. rewrite Hdup. reflexivity. }
  destruct (m_listenerMethodId s =? 0); [discriminate E|].
  inversion E; subst. cbn [m_listeners].
  assert (already_added listener
            (<[m_listener_next_id s:=listener]> (m_listeners s)) = true) as ->
    by (apply already_added_spec; eexists; apply lookup_insert_eq).
  reflexivity.
Qed.


End Registry.

(** ** The registry on concrete calls *)

Lemma registry_always_ok_witness :
  Z.of_nat (length [call_Advise (Some 1) true; call_Advise (Some 2) true;
                    call_Unadvise 1]) < 2 ^ 32 - 1 /\
  registry_ok
    (do_calls example_QueryInterface
       [call_Advise (Some 1) true; call_Advise (Some 2) true; call_Unadvise 1]
       (new_subscription 5)).
Proof.
  assert (Z.of_nat (length [call_Advise (Some 1) true;
                            call_Advise (Some 2) true; call_Unadvise 1])
          < 2 ^ 32 - 1) as Hlen by (vm_compute; reflexivity).
  split; [exact Hlen|].
  exact (registry_always_ok example_QueryInterface 5 _ Hlen).
Defined.

Lemma Unadvise_cases_witness :
  registry_ok (new_subscription 5) /\
  Unadvise 0 (new_subscription 5) = (E_POINTER, new_subscription 5).
Proof.
  split; [apply new_subscription_ok|].
  exact (proj1 (Unadvise_cases 0 (new_subscription 5)
                  (new_subscription_ok 5))).
Defined.

Lemma Unadvise_Advise_witness :
  registry_ok (new_subscription 5) /\
  Advise example_QueryInterface (Some 1) true (new_subscription 5)
    = (S_OK, Some 1,
       snd (Advise example_QueryInterface (Some 1) true (new_subscription 5))) /\
  1 <> 0 /\
  exists listener,
    example_QueryInterface 1 = Some listener /\
    fst (Unadvise 1
           (snd (Advise example_QueryInterface (Some 1) true
                   (new_subscription 5)))) = S_OK /\
    m_listeners
      (snd (Unadvise 1
              (snd (Advise example_QueryInterface (Some 1) true
                      (new_subscription 5)))))
      = m_listeners (new_subscription 5) /\
    released
      (snd (Unadvise 1
              (snd (Advise example_QueryInterface (Some 1) true
                      (new_subscription 5)))))
      = listener :: released (new_subscription 5).
Proof.
  assert (Advise example_QueryInterface (Some 1) true (new_subscription 5)
          = (S_OK, Some 1,
             snd (Advise example_QueryInterface (Some 1) true
                    (new_subscription 5)))) as E by reflexivity.
  assert (1 <> 0) as Hc by lia.
  split; [apply new_subscription_ok|]. split; [exact E|]. split; [exact Hc|].
  exact (Unadvise_Advise example_QueryInterface 1 _ _ 1
           (new_subscription_ok 5) E Hc).
Defined.

Lemma Advise_twice_witness :
  Advise example_QueryInterface (Some 1) true (new_subscription 5)
    = (S_OK, Some 1,
       snd (Advise example_QueryInterface (Some 1) true (new_subscription 5))) /\
  Advise example_QueryInterface (Some 1) true
    (snd (Advise example_QueryInterface (Some 1) true (new_subscription 5)))
    = (S_OK, Some 0,
       snd (Advise example_QueryInterface (Some 1) true (new_subscription 5))).
Proof.
  assert (Advise example_QueryInterface (Some 1) true (new_subscription 5)
          = (S_OK, Some 1,
             snd (Advise example_QueryInterface (Some 1) true
                    (new_subscription 5)))) as E by reflexivity.
  split; [exact E|].
  exact (Advise_twice example_QueryInterface 1 _ _ 1 E).
Defined.

